(** * FedML workflow coordinator: dependency graph, batching and run loop

    A shallow embedding of [python/fedml/workflow/workflow.py]: the job
    registry of a [Workflow], the construction of its dependency graph, the
    layering of that graph into batches, and the run loop that starts,
    polls and kills the jobs of each batch.

    Python dictionaries keep insertion order, and the order in which
    [self.jobs.items()] is walked decides the order in which graph entries
    are created, so dictionaries are association lists with unique keys.
    Python sets are lists without repetition; the order of their elements is
    a choice of the model that no statement below depends on. *)

From Stdlib Require Import String List Arith Bool Lia Relations ListDec.
Import ListNotations.
Local Open Scope string_scope.
Local Open Scope list_scope.

(** ** Jobs and nodes *)

(** Modelled from the spec: [fedml.workflow.jobs.JobStatus] is imported by
    the coordinator but its declaration is not part of the sources at hand.
    The status query "returns one of {not-started, running, finished,
    failed, undetermined}". *)
Inductive JobStatus : Type :=
  | NOT_STARTED
  | RUNNING
  | FINISHED
  | FAILED
  | UNDETERMINED.

(** Modelled from the spec: [fedml.workflow.jobs.Job] is imported by the
    coordinator but its declaration is not part of the sources at hand.  A
    job is "opaque beyond its name" and its start, status and terminate
    operations.  A value of [Job] stands for one job object: [job_ref] is the
    identity of the object and [job_name] its [name] attribute.  The class is
    not known to override comparison, so two jobs are the same Python object
    exactly when the two values are equal. *)
Record Job : Type := mkJob { job_ref : nat; job_name : string }.

(** [Node = namedtuple('Node', ['name', 'job'])]. *)
Record Node : Type := mkNode { name : string; job : Job }.

Definition JobStatus_eqb (a b : JobStatus) : bool :=
  match a, b with
  | NOT_STARTED, NOT_STARTED | RUNNING, RUNNING | FINISHED, FINISHED
  | FAILED, FAILED | UNDETERMINED, UNDETERMINED => true
  | _, _ => false
  end.

Definition Job_eqb (a b : Job) : bool :=
  Nat.eqb (job_ref a) (job_ref b) && String.eqb (job_name a) (job_name b).

(** Equality of named tuples is equality of tuples: field by field. *)
Definition Node_eqb (a b : Node) : bool :=
  String.eqb (name a) (name b) && Job_eqb (job a) (job b).

(** A value handed to [add_job]: Python checks at run time that it is a job. *)
Inductive PyObj : Type :=
  | PJob (j : Job)
  | PNotJob (tag : nat).

(** [isinstance(o, Job)] *)
Definition isinstance_Job (o : PyObj) : bool :=
  match o with PJob _ => true | PNotJob _ => false end.

(** ** Dictionaries and sets *)

Section Dict.
Context {K V : Type}.
Variable eqb : K -> K -> bool.

(** [k in d] *)
Fixpoint dict_mem (d : list (K * V)) (k : K) : bool :=
  match d with
  | [] => false
  | (k', _) :: d' => eqb k' k || dict_mem d' k
  end.

(** [d.get(k, default)] *)
Fixpoint dict_get (d : list (K * V)) (k : K) (default : V) : V :=
  match d with
  | [] => default
  | (k', v) :: d' => if eqb k' k then v else dict_get d' k default
  end.

(** [d[k] = v]: an existing key keeps its place, a new one goes last. *)
Fixpoint dict_set (d : list (K * V)) (k : K) (v : V) : list (K * V) :=
  match d with
  | [] => [(k, v)]
  | (k', v') :: d' =>
      if eqb k' k then (k', v) :: d' else (k', v') :: dict_set d' k v
  end.

(** [d.values()] *)
Definition dict_values (d : list (K * V)) : list V := map snd d.

End Dict.

(** [n in s] for a set of nodes. *)
Definition node_in (n : Node) (s : list Node) : bool := existsb (Node_eqb n) s.

(** [s.add(n)] *)
Definition set_add (n : Node) (s : list Node) : list Node :=
  if node_in n s then s else s ++ [n].

(** The graph: [defaultdict(set)] from a node to the nodes it depends on. *)
Definition Graph : Type := list (Node * list Node).

(** [graph[node].add(dependency_node)]: a missing key is first created with
    an empty set, as [defaultdict] does. *)
Fixpoint graph_add (g : Graph) (node dependency_node : Node) : Graph :=
  match g with
  | [] => [(node, set_add dependency_node [])]
  | (k, s) :: g' =>
      if Node_eqb k node then (k, set_add dependency_node s) :: g'
      else (k, s) :: graph_add g' node dependency_node
  end.

(** ** Layering of the graph

    [toposort] is imported from a package whose code is not part of the
    sources at hand; this section follows the description the specification
    gives of it. *)

(** Modelled from the spec: what [toposort] comes to.  It either yields the
    batches, or fails because "nodes remain but none are extractable";
    [LayeringFuel] is the loop below running out of iterations, which does
    not happen ([toposort_never_out_of_fuel]). *)
Inductive Layering : Type :=
  | Batches (bs : list (list Node))
  | Circular (remaining : Graph)
  | LayeringFuel.

(** Modelled from the spec: part of [toposort]; an entry "with no remaining
    unresolved dependencies". *)
Definition no_dependencies (e : Node * list Node) : bool :=
  match snd e with [] => true | _ :: _ => false end.

(** Modelled from the spec: part of [toposort]; "the set of nodes with no
    remaining unresolved dependencies". *)
Definition extractable (data : Graph) : list Node :=
  map fst (filter no_dependencies data).

(** Modelled from the spec: part of [toposort]; "remove them and their
    outgoing edges": the extracted nodes go, and so do the edges by which
    the remaining nodes depended on them. *)
Definition remove_nodes (ordered : list Node) (data : Graph) : Graph :=
  map (fun e => (fst e, filter (fun d => negb (node_in d ordered)) (snd e)))
      (filter (fun e => negb (node_in (fst e) ordered)) data).

(** Modelled from the spec: part of [toposort]; "repeatedly extract ..., and
    append that set as the next batch, until no nodes remain; if nodes
    remain but none are extractable, a cycle exists". *)
Fixpoint toposort_loop (fuel : nat) (data : Graph) : Layering :=
  match extractable data with
  | [] => match data with [] => Batches [] | _ :: _ => Circular data end
  | ordered =>
      match fuel with
      | 0 => LayeringFuel
      | S fuel' =>
          match toposort_loop fuel' (remove_nodes ordered data) with
          | Batches bs => Batches (ordered :: bs)
          | r => r
          end
      end
  end.

(** Modelled from the spec: part of [toposort]; the dependency targets that
    are not keys of the graph, each once.  They are nodes of the graph too. *)
Fixpoint extra_items (keys : list Node) (deps : list Node) : list Node :=
  match deps with
  | [] => []
  | d :: deps' =>
      let rest := extra_items keys deps' in
      if node_in d keys || node_in d rest then rest else d :: rest
  end.

(** Modelled from the spec: part of [toposort]; every node of the graph as
    an entry: the keys with their dependencies, then the nodes that only
    occur as a dependency, with none. *)
Definition all_entries (g : Graph) : Graph :=
  g ++ map (fun n => (n, [])) (extra_items (map fst g) (concat (map snd g))).

(** Modelled from the spec: [toposort] comes from a package that is not part
    of the sources at hand.  "Standard layered topological sort: repeatedly
    extract the set of nodes with no remaining unresolved dependencies,
    remove them and their outgoing edges, and append that set as the next
    batch, until no nodes remain; if nodes remain but none are extractable,
    a cycle exists."  Every pass that extracts a node shortens [data], so
    its length is fuel enough ([toposort_never_out_of_fuel]). *)
Definition toposort (g : Graph) : Layering :=
  toposort_loop (length (all_entries g)) (all_entries g).

(** ** The workflow *)

(** [Metadata = namedtuple('Metadata', ['nodes', 'topological_order', 'graph'])] *)
Record Metadata : Type := mkMetadata {
  nodes : list Node;
  topological_order : list (list Node);
  graph : Graph
}.

(** A value of [self.jobs]: [{'job': job, 'dependencies': dependencies}]. *)
Record JobEntry : Type := mkJobEntry {
  entry_job : Job;
  entry_dependencies : list Job
}.

Record Workflow : Type := mkWorkflow {
  workflow_name : string;
  _metadata : option Metadata;
  _loop : bool;
  jobs : list (string * JobEntry)
}.

Inductive Exn : Type :=
  | TypeError_not_a_job
  | TypeError_dependencies
  | ValueError_job_exists (job_name : string)
  | ValueError_metadata_cannot_be_modified
  | ValueError_metadata_already_exists
  | ValueError_jobs_errored (errored_jobs : list string)
  | CircularDependencyError (remaining : Graph)
  | AttributeError_NoneType.

(** What a call comes to: a value, an exception, or no answer within the
    number of loop iterations the model was given. *)
Inductive Outcome (A : Type) : Type :=
  | Returned (a : A)
  | Raised (e : Exn)
  | OutOfFuel.
Arguments Returned {A} a.
Arguments Raised {A} e.
Arguments OutOfFuel {A}.

(** [Workflow.__init__] *)
Definition Workflow_init (name : string) (loop : bool) : Workflow :=
  {| workflow_name := name; _metadata := None; _loop := loop; jobs := [] |}.

(** Truth value of [self._metadata]: [None] is false; a [Metadata] is a tuple
    of three fields, and a tuple that is not empty is true. *)
Definition truthy (m : option Metadata) : bool :=
  match m with None => false | Some _ => true end.

(** The [metadata] property: [self._metadata if self._metadata else None]. *)
Definition metadata (wf : Workflow) : Outcome (option Metadata) :=
  Returned (if truthy (_metadata wf) then _metadata wf else None).

(** The [loop] property. *)
Definition loop (wf : Workflow) : bool := _loop wf.

Definition with_metadata (wf : Workflow) (value : option Metadata) : Workflow :=
  {| workflow_name := workflow_name wf; _metadata := value;
     _loop := _loop wf; jobs := jobs wf |}.

(** The setter of [metadata]. *)
Definition metadata_setter (wf : Workflow) (value : option Metadata)
  : Outcome unit * Workflow :=
  if negb (truthy (_metadata wf)) then (Returned tt, with_metadata wf value)
  else (Raised ValueError_metadata_cannot_be_modified, wf).

(** The setter of [loop]. *)
Definition loop_setter (wf : Workflow) (value : bool) : Workflow :=
  {| workflow_name := workflow_name wf; _metadata := _metadata wf;
     _loop := value; jobs := jobs wf |}.

(** The jobs of a list of values, when every one of them is a job. *)
Fixpoint as_jobs (l : list PyObj) : option (list Job) :=
  match l with
  | [] => Some []
  | PJob j :: l' =>
      match as_jobs l' with Some js => Some (j :: js) | None => None end
  | PNotJob _ :: _ => None
  end.

(** [Workflow.add_job] *)
Definition add_job (wf : Workflow) (j : PyObj) (dependencies : option (list PyObj))
  : Outcome unit * Workflow :=
  match j with
  | PNotJob _ => (Raised TypeError_not_a_job, wf)
  | PJob j =>
      let dependencies := match dependencies with None => [] | Some l => l end in
      if negb (forallb isinstance_Job dependencies)
      then (Raised TypeError_dependencies, wf)
      else
        match as_jobs dependencies with
        | None => (Raised TypeError_dependencies, wf)
        | Some deps =>
            if dict_mem String.eqb (jobs wf) (job_name j)
            then (Raised (ValueError_job_exists (job_name j)), wf)
            else (Returned tt,
                  {| workflow_name := workflow_name wf;
                     _metadata := _metadata wf;
                     _loop := _loop wf;
                     jobs := dict_set String.eqb (jobs wf) (job_name j)
                               (mkJobEntry j deps) |})
        end
  end.

(** The inner loop of [_compute_workflow_metadata]: one edge per declared
    dependency.  [node_dict] is only ever read. *)
Definition add_dependencies (node_dict : list (string * Node)) (node : Node)
    (dependencies : list Job) (g : Graph) : Graph :=
  fold_left
    (fun g dependency =>
       let dependency_node :=
         dict_get String.eqb node_dict (job_name dependency)
                  (mkNode (job_name dependency) dependency) in
       graph_add g node dependency_node)
    dependencies g.

(** The outer loop of [_compute_workflow_metadata], over [self.jobs.items()]. *)
Definition build_graph (node_dict : list (string * Node))
    (jobs : list (string * JobEntry)) : Graph :=
  fold_left
    (fun g item =>
       let node :=
         dict_get String.eqb node_dict (fst item)
                  (mkNode (fst item) (entry_job (snd item))) in
       add_dependencies node_dict node (entry_dependencies (snd item)) g)
    jobs [].

(** [Workflow._compute_workflow_metadata].  The three fields of the new
    [Metadata] are evaluated before the property is assigned, so a failing
    [toposort] leaves the workflow as it was. *)
Definition _compute_workflow_metadata (wf : Workflow)
  : Outcome (option Metadata) * Workflow :=
  match metadata wf with
  | Returned (Some _) => (Raised ValueError_metadata_already_exists, wf)
  | Returned None =>
      let node_dict : list (string * Node) := [] in
      let g := build_graph node_dict (jobs wf) in
      match toposort g with
      | Circular remaining => (Raised (CircularDependencyError remaining), wf)
      | LayeringFuel => (OutOfFuel, wf)
      | Batches bs =>
          let value := mkMetadata (dict_values node_dict) bs g in
          match metadata_setter wf (Some value) with
          | (Returned _, wf') => (metadata wf', wf')
          | (Raised e, wf') => (Raised e, wf')
          | (OutOfFuel, wf') => (OutOfFuel, wf')
          end
      end
  | Raised e => (Raised e, wf)
  | OutOfFuel => (OutOfFuel, wf)
  end.

(** ** The jobs' environment *)

(** The capability contract of a job handle, over the state [E] of whatever
    runs the jobs: starting and killing change that state, a status query
    reads a status off it (and may change it), and sleeping lets it move on. *)
Class JobHandle (E : Type) : Type := {
  job_run : Job -> E -> E;
  job_status : Job -> E -> JobStatus * E;
  job_kill : Job -> E -> E;
  time_sleep : nat -> E -> E
}.

(** What the coordinator asked of the environment, in the order it asked. *)
Inductive Event : Type :=
  | CallRun (j : Job)
  | CallStatus (j : Job) (s : JobStatus)
  | CallKill (j : Job)
  | CallSleep (seconds : nat).

Record World (E : Type) : Type := mkWorld { trace : list Event; env : E }.
Arguments mkWorld {E} trace env.
Arguments trace {E} w.
Arguments env {E} w.

(** Computations that call the environment and may raise. *)
Definition Run (E A : Type) : Type := World E -> Outcome A * World E.

Definition ret {E A : Type} (a : A) : Run E A := fun w => (Returned a, w).

Definition raise {E A : Type} (e : Exn) : Run E A := fun w => (Raised e, w).

Definition bind {E A B : Type} (m : Run E A) (k : A -> Run E B) : Run E B :=
  fun w =>
    match m w with
    | (Returned a, w') => k a w'
    | (Raised e, w') => (Raised e, w')
    | (OutOfFuel, w') => (OutOfFuel, w')
    end.

Notation "x <- m ;; k" := (bind m (fun x => k))
  (at level 100, m at next level, right associativity).

Section Coordinator.
Context {E : Type} `{JobHandle E}.

Definition call_run (j : Job) (w : World E) : World E :=
  mkWorld (trace w ++ [CallRun j]) (job_run j (env w)).

Definition call_status (j : Job) (w : World E) : JobStatus * World E :=
  let (s, e) := job_status j (env w) in
  (s, mkWorld (trace w ++ [CallStatus j s]) e).

Definition call_kill (j : Job) (w : World E) : World E :=
  mkWorld (trace w ++ [CallKill j]) (job_kill j (env w)).

Definition call_sleep (seconds : nat) (w : World E) : World E :=
  mkWorld (trace w ++ [CallSleep seconds]) (time_sleep seconds (env w)).

(** [Workflow._kill_jobs] *)
Definition _kill_jobs (jobs : list Job) (w : World E) : World E :=
  fold_left (fun w j => call_kill j w) jobs w.

(** The first loop of [_execute_and_wait]: [job.run()] for every job. *)
Definition start_jobs (jobs : list Job) (w : World E) : World E :=
  fold_left (fun w j => call_run j w) jobs w.

(** The three locals of one polling pass. *)
Record Poll : Type := mkPoll {
  all_completed : bool;
  any_errored : bool;
  errored_jobs : list string
}.

(** The body of the inner [for] of the polling pass. *)
Definition poll_job (st : Poll) (j : Job) (w : World E) : Poll * World E :=
  let (status, w') := call_status j w in
  (if negb (JobStatus_eqb status FINISHED) then
     if JobStatus_eqb status FAILED || JobStatus_eqb status UNDETERMINED
     then mkPoll false true (errored_jobs st ++ [job_name j])
     else mkPoll false (any_errored st) (errored_jobs st)
   else st,
   w').

Fixpoint poll_jobs (jobs : list Job) (st : Poll) (w : World E) : Poll * World E :=
  match jobs with
  | [] => (st, w)
  | j :: rest => let (st', w') := poll_job st j w in poll_jobs rest st' w'
  end.

(** The [while True] of [_execute_and_wait]; [fuel] bounds its passes. *)
Fixpoint wait_loop (fuel : nat) (jobs : list Job) : Run E bool :=
  fun w =>
    match fuel with
    | 0 => (OutOfFuel, w)
    | S fuel' =>
        let (st, w1) := poll_jobs jobs (mkPoll true false []) w in
        if all_completed st then (Returned true, w1)
        else if any_errored st
        then (Raised (ValueError_jobs_errored (errored_jobs st)), _kill_jobs jobs w1)
        else wait_loop fuel' jobs (call_sleep 60 w1)
    end.

(** [Workflow._execute_and_wait] *)
Definition _execute_and_wait (fuel : nat) (jobs : list Job) : Run E bool :=
  fun w => wait_loop fuel jobs (start_jobs jobs w).

(** The [for nodes in self.metadata.topological_order] of [run]. *)
Fixpoint run_batches (fuel : nat) (batches : list (list Node)) : Run E unit :=
  match batches with
  | [] => ret tt
  | nodes :: rest =>
      _ <- _execute_and_wait fuel (map job nodes) ;;
      run_batches fuel rest
  end.

(** [self.metadata.topological_order] *)
Definition metadata_topological_order (wf : Workflow) : Run E (list (list Node)) :=
  match metadata wf with
  | Returned (Some m) => ret (topological_order m)
  | Returned None => raise AttributeError_NoneType
  | Raised e => raise e
  | OutOfFuel => fun w => (OutOfFuel, w)
  end.

(** The [while first_run or self.loop] of [run]; [fuel] bounds its passes
    and the passes of every polling loop inside. *)
Fixpoint run_loop (fuel : nat) (wf : Workflow) (first_run : bool) : Run E unit :=
  if first_run || loop wf then
    match fuel with
    | 0 => fun w => (OutOfFuel, w)
    | S fuel' =>
        batches <- metadata_topological_order wf ;;
        _ <- run_batches fuel' batches ;;
        run_loop fuel' wf false
    end
  else ret tt.

(** [Workflow.run] *)
Definition run (fuel : nat) (wf : Workflow) (w : World E)
  : Outcome unit * Workflow * World E :=
  match _compute_workflow_metadata wf with
  | (Returned _, wf') => let (o, w') := run_loop fuel wf' true w in (o, wf', w')
  | (Raised e, wf') => (Raised e, wf', w)
  | (OutOfFuel, wf') => (OutOfFuel, wf', w)
  end.

End Coordinator.

(** ** Environments to run the model in *)

(** The status of every job is a function of the time slept so far. *)
Definition scripted (script : nat -> Job -> JobStatus) : JobHandle nat :=
  {| job_run := fun _ t => t;
     job_status := fun j t => (script t j, t);
     job_kill := fun _ t => t;
     time_sleep := fun s t => s + t |}.

Definition world0 : World nat := mkWorld [] 0.

(** ** Dependency relations *)

(** [a] depends on [b] in the graph. *)
Definition edge (g : Graph) (a b : Node) : Prop :=
  exists deps, In (a, deps) g /\ In b deps.

Definition has_cycle (g : Graph) : Prop :=
  exists n, clos_trans Node (edge g) n n.

Definition acyclic (g : Graph) : Prop :=
  forall n, ~ clos_trans Node (edge g) n n.

(** The node of a registered job depends on the node of a job of its
    dependency list. *)
Definition depends_on (wf : Workflow) (a b : Node) : Prop :=
  exists key job_instance dependency,
    In (key, job_instance) (jobs wf) /\
    In dependency (entry_dependencies job_instance) /\
    a = mkNode key (entry_job job_instance) /\
    b = mkNode (job_name dependency) dependency.

(** Node [n] is in the batch of index [i]. *)
Definition in_batch (bs : list (list Node)) (i : nat) (n : Node) : Prop :=
  In n (nth i bs []).

(** The keys of the graph are distinct and every dependency is a key. *)
Definition closed (d : Graph) : Prop :=
  NoDup (map fst d) /\
  forall a deps b, In (a, deps) d -> In b deps -> In b (map fst d).

(** A walk along [R] from [x] through the nodes of [l]. *)
Fixpoint chain (R : Node -> Node -> Prop) (x : Node) (l : list Node) : Prop :=
  match l with
  | [] => True
  | y :: t => R x y /\ chain R y t
  end.

(** ** What a polling pass observes *)

(** A status that counts as an error for the coordinator. *)
Definition is_errored (s : JobStatus) : bool :=
  JobStatus_eqb s FAILED || JobStatus_eqb s UNDETERMINED.

Definition is_finished (s : JobStatus) : bool := JobStatus_eqb s FINISHED.

(** The jobs started, and the jobs killed, along a trace. *)
Definition runs_of (tr : list Event) : list Job :=
  flat_map (fun ev => match ev with CallRun j => [j] | _ => [] end) tr.

Definition kills_of (tr : list Event) : list Job :=
  flat_map (fun ev => match ev with CallKill j => [j] | _ => [] end) tr.

Section Observations.
Context {E : Type} `{JobHandle E}.

(** The statuses that the jobs report, in turn, in one pass from [w]. *)
Fixpoint statuses_of_pass (jobs : list Job) (w : World E) : list (Job * JobStatus) :=
  match jobs with
  | [] => []
  | j :: rest => let (s, w') := call_status j w in (j, s) :: statuses_of_pass rest w'
  end.

(** The names of the jobs that reported an error in one pass from [w]. *)
Definition errored_names (jobs : list Job) (w : World E) : list string :=
  map (fun p => job_name (fst p))
      (filter (fun p => is_errored (snd p)) (statuses_of_pass jobs w)).

(** The world after [k] passes from [w] in each of which some job was not
    finished and none reported an error, and the sleep after each. *)
Fixpoint after_quiet_passes (k : nat) (jobs : list Job) (w : World E)
  : option (World E) :=
  match k with
  | 0 => Some w
  | S k' =>
      let (st, w1) := poll_jobs jobs (mkPoll true false []) w in
      if all_completed st || any_errored st then None
      else after_quiet_passes k' jobs (call_sleep 60 w1)
  end.

(** [n] passes over the batch sequence, all completed, lead from [w] to [w']. *)
Inductive passes (fuel : nat) (batches : list (list Node))
  : nat -> World E -> World E -> Prop :=
  | passes_O (w : World E) : passes fuel batches 0 w w
  | passes_S (n : nat) (w w1 w2 : World E) :
      run_batches fuel batches w = (Returned tt, w1) ->
      passes fuel batches n w1 w2 ->
      passes fuel batches (S n) w w2.

End Observations.

(** ** Workflows used as examples *)

(** [w.add_job(j, deps)] on jobs. *)
Definition register (wf : Workflow) (j : Job) (deps : list Job) : Workflow :=
  snd (add_job wf (PJob j) (Some (map PJob deps))).

Definition job_X : Job := mkJob 1 "X".
Definition job_Y : Job := mkJob 2 "Y".
Definition job_A : Job := mkJob 3 "A".
Definition job_B : Job := mkJob 4 "B".
Definition job_C : Job := mkJob 5 "C".

(** Another job object that is also named A. *)
Definition job_A' : Job := mkJob 6 "A".

(** X and Y, no dependencies. *)
Definition workflow_XY : Workflow :=
  register (register (Workflow_init "xy" false) job_X []) job_Y [].

(** C depends on B, B depends on A. *)
Definition workflow_ABC : Workflow :=
  register (register (register (Workflow_init "abc" false) job_C [job_B])
                     job_B [job_A])
           job_A [].

(** A depends on C; B depends on A, through another job object named A. *)
Definition workflow_AA : Workflow :=
  register (register (Workflow_init "aa" false) job_A [job_C]) job_B [job_A'].

(** A depends on B and B depends on A. *)
Definition workflow_cyclic : Workflow :=
  register (register (Workflow_init "cyclic" true) job_A [job_B]) job_B [job_A].

(** [workflow_ABC], looping. *)
Definition workflow_loop : Workflow := loop_setter workflow_ABC true.

(** Every job has finished whenever it is asked. *)
Definition all_finished : JobHandle nat := scripted (fun _ _ => FINISHED).

(** Every job runs for two minutes; then the job named [failing] has failed
    and the others have finished. *)
Definition fails_late (failing : string) : JobHandle nat :=
  scripted (fun t j =>
              if Nat.ltb t 120 then RUNNING
              else if String.eqb (job_name j) failing then FAILED else FINISHED).

Definition job_P : Job := mkJob 7 "P".
Definition job_Q : Job := mkJob 8 "Q".
Definition job_R : Job := mkJob 9 "R".

(** R depends on P and Q, so that P and Q share a batch. *)
Definition workflow_PQR : Workflow :=
  register (Workflow_init "pqr" false) job_R [job_P; job_Q].

(** ** Workflows before their first run *)

(** The seconds slept, along a trace. *)
Definition sleeps_of (tr : list Event) : list nat :=
  flat_map (fun ev => match ev with CallSleep s => [s] | _ => [] end) tr.

(** The workflows a caller can hold before the first [run]: a new one, and
    one on which [add_job] (with whatever arguments, and whatever came of
    it) or the setter of [loop] was called. *)
Inductive registered : Workflow -> Prop :=
  | registered_init (name : string) (loop : bool) :
      registered (Workflow_init name loop)
  | registered_add_job (wf : Workflow) (j : PyObj)
      (dependencies : option (list PyObj)) :
      registered wf -> registered (snd (add_job wf j dependencies))
  | registered_loop_setter (wf : Workflow) (value : bool) :
      registered wf -> registered (loop_setter wf value).

(** Every entry of the graph is a set, and not an empty one. *)
Definition entries_are_sets (g : Graph) : Prop :=
  forall a deps, In (a, deps) g -> NoDup deps /\ deps <> [].

(** * Properties *)

(** ** Equality of jobs and nodes *)

Lemma Job_eqb_eq (a b : Job) : Job_eqb a b = true <-> a = b.
Proof.
  unfold Job_eqb. rewrite andb_true_iff, Nat.eqb_eq, String.eqb_eq.
  destruct a, b; simpl. split.
  - intros [-> ->]. reflexivity.
  - intros [= -> ->]. auto.
Qed.

Lemma Node_eqb_eq (a b : Node) : Node_eqb a b = true <-> a = b.
Proof.
  unfold Node_eqb. rewrite andb_true_iff, String.eqb_eq, Job_eqb_eq.
  destruct a, b; simpl. split.
  - intros [-> ->]. reflexivity.
  - intros [= -> ->]. auto.
Qed.

Lemma Node_eqb_refl (a : Node) : Node_eqb a a = true.
Proof. apply Node_eqb_eq. reflexivity. Qed.

Lemma Node_eq_dec (a b : Node) : {a = b} + {a <> b}.
Proof.
  destruct (Node_eqb a b) eqn:Hab.
  - left. apply Node_eqb_eq. exact Hab.
  - right. intros Heq. apply Node_eqb_eq in Heq. congruence.
Qed.

Lemma node_in_In (n : Node) (s : list Node) : node_in n s = true <-> In n s.
Proof.
  unfold node_in. rewrite existsb_exists. split.
  - intros [x [Hx Heq]]. apply Node_eqb_eq in Heq. subst. exact Hx.
  - intros Hn. exists n. split; [exact Hn | apply Node_eqb_refl].
Qed.

Lemma node_in_not_In (n : Node) (s : list Node) : node_in n s = false <-> ~ In n s.
Proof.
  rewrite <- node_in_In. destruct (node_in n s); split; congruence.
Qed.

(** ** The layering loop *)

Lemma toposort_loop_eq (fuel : nat) (data : Graph) :
  toposort_loop fuel data =
  match extractable data with
  | [] => match data with [] => Batches [] | _ :: _ => Circular data end
  | ordered =>
      match fuel with
      | 0 => LayeringFuel
      | S fuel' =>
          match toposort_loop fuel' (remove_nodes ordered data) with
          | Batches bs => Batches (ordered :: bs)
          | r => r
          end
      end
  end.
Proof. destruct fuel; reflexivity. Qed.

Lemma extractable_In (d : Graph) (n : Node) :
  In n (extractable d) <-> In (n, []) d.
Proof.
  unfold extractable. rewrite in_map_iff. split.
  - intros [[a deps] [Ha Hin]]. apply filter_In in Hin. destruct Hin as [Hin Hno].
    simpl in Ha. subst a. unfold no_dependencies in Hno. simpl in Hno.
    destruct deps; [exact Hin | discriminate].
  - intros Hin. exists (n, []). split; [reflexivity |].
    apply filter_In. split; [exact Hin | reflexivity].
Qed.

Lemma remove_nodes_In (o : list Node) (d : Graph) (a : Node) (deps' : list Node) :
  In (a, deps') (remove_nodes o d) <->
  exists deps, In (a, deps) d /\ ~ In a o /\
               deps' = filter (fun x => negb (node_in x o)) deps.
Proof.
  unfold remove_nodes. rewrite in_map_iff. split.
  - intros [[a0 deps] [Heq Hin]]. simpl in Heq. injection Heq as -> <-.
    apply filter_In in Hin. destruct Hin as [Hin Hneg]. simpl in Hneg.
    exists deps. repeat split; [exact Hin |].
    apply node_in_not_In. destruct (node_in a o); [discriminate | reflexivity].
  - intros [deps [Hin [Hno ->]]]. exists (a, deps). split; [reflexivity |].
    apply filter_In. split; [exact Hin |]. simpl.
    apply node_in_not_In in Hno. rewrite Hno. reflexivity.
Qed.

Lemma remove_nodes_keys (o : list Node) (d : Graph) (a : Node) :
  In a (map fst (remove_nodes o d)) <-> In a (map fst d) /\ ~ In a o.
Proof.
  rewrite !in_map_iff. split.
  - intros [[a0 deps'] [Heq Hin]]. simpl in Heq. subst a0.
    apply remove_nodes_In in Hin. destruct Hin as [deps [Hin [Hno _]]].
    split; [| exact Hno]. exists (a, deps). auto.
  - intros [[[a0 deps] [Heq Hin]] Hno]. simpl in Heq. subst a0.
    exists (a, filter (fun x => negb (node_in x o)) deps). split; [reflexivity |].
    apply remove_nodes_In. exists deps. auto.
Qed.

Lemma NoDup_map_fst_filter {A B : Type} (f : A * B -> bool) (l : list (A * B)) :
  NoDup (map fst l) -> NoDup (map fst (filter f l)).
Proof.
  induction l as [| x l IH]; simpl; intros Hnd; [constructor |].
  inversion Hnd as [| ? ? Hnotin Hnd']; subst.
  destruct (f x); simpl; [| auto].
  constructor; [| auto].
  intros Hin. apply Hnotin. apply in_map_iff in Hin.
  destruct Hin as [y [Hy Hin]]. apply filter_In in Hin.
  apply in_map_iff. exists y. tauto.
Qed.

Lemma remove_nodes_NoDup (o : list Node) (d : Graph) :
  NoDup (map fst d) -> NoDup (map fst (remove_nodes o d)).
Proof.
  intros Hnd. unfold remove_nodes. rewrite map_map. simpl.
  apply NoDup_map_fst_filter with (f := fun e => negb (node_in (fst e) o)).
  exact Hnd.
Qed.

Lemma remove_nodes_closed (o : list Node) (d : Graph) :
  closed d -> closed (remove_nodes o d).
Proof.
  intros [Hnd Hcl]. split; [apply remove_nodes_NoDup; exact Hnd |].
  intros a deps' b Hin Hb. apply remove_nodes_In in Hin.
  destruct Hin as [deps [Hin [Hno ->]]]. apply filter_In in Hb.
  destruct Hb as [Hb Hneg]. apply remove_nodes_keys. split.
  - eapply Hcl; eauto.
  - apply node_in_not_In. destruct (node_in b o); [discriminate | reflexivity].
Qed.

Lemma remove_nodes_edge (o : list Node) (d : Graph) (a b : Node) :
  edge (remove_nodes o d) a b <-> edge d a b /\ ~ In a o /\ ~ In b o.
Proof.
  unfold edge. split.
  - intros [deps' [Hin Hb]]. apply remove_nodes_In in Hin.
    destruct Hin as [deps [Hin [Hno ->]]]. apply filter_In in Hb.
    destruct Hb as [Hb Hneg]. repeat split; [exists deps; auto | exact Hno |].
    apply node_in_not_In. destruct (node_in b o); [discriminate | reflexivity].
  - intros [[deps [Hin Hb]] [Ha Hnb]].
    exists (filter (fun x => negb (node_in x o)) deps). split.
    + apply remove_nodes_In. exists deps. auto.
    + apply filter_In. split; [exact Hb |].
      apply node_in_not_In in Hnb. rewrite Hnb. reflexivity.
Qed.

Lemma filter_length_lt {A : Type} (f : A -> bool) (l : list A) (x : A) :
  In x l -> f x = false -> length (filter f l) < length l.
Proof.
  induction l as [| y l IH]; simpl; [tauto |].
  intros [-> | Hin] Hfx.
  - rewrite Hfx. pose proof (filter_length_le f l). lia.
  - specialize (IH Hin Hfx). destruct (f y); simpl; lia.
Qed.

Lemma remove_nodes_length (d : Graph) (n : Node) :
  In n (extractable d) ->
  length (remove_nodes (extractable d) d) < length d.
Proof.
  intros Hn. unfold remove_nodes. rewrite length_map.
  apply filter_length_lt with (x := (n, [])).
  - apply extractable_In. exact Hn.
  - simpl. apply negb_false_iff. apply node_in_In. exact Hn.
Qed.

Lemma toposort_loop_fuel (fuel : nat) :
  forall d, length d <= fuel -> toposort_loop fuel d <> LayeringFuel.
Proof.
  induction fuel as [| fuel IH]; intros d Hlen; rewrite toposort_loop_eq.
  - destruct d; [simpl; discriminate | simpl in Hlen; lia].
  - destruct (extractable d) as [| n o] eqn:Hex.
    + destruct d; discriminate.
    + assert (Hlt : length (remove_nodes (n :: o) d) < length d).
      { rewrite <- Hex. apply remove_nodes_length with (n := n).
        rewrite Hex. left. reflexivity. }
      specialize (IH (remove_nodes (n :: o) d)). cbv zeta.
      destruct (toposort_loop fuel (remove_nodes (n :: o) d));
        try discriminate. apply IH. lia.
Qed.

Lemma NoDup_keys_unique {A B : Type} (l : list (A * B)) (a : A) (x y : B) :
  NoDup (map fst l) -> In (a, x) l -> In (a, y) l -> x = y.
Proof.
  induction l as [| [k v] l IH]; simpl; [tauto |].
  intros Hnd Hx Hy. inversion Hnd as [| ? ? Hnotin Hnd']; subst.
  assert (Hkey : forall z, In (k, z) l -> False).
  { intros z Hz. apply Hnotin. apply in_map_iff. exists (k, z). auto. }
  destruct Hx as [Hx | Hx]; destruct Hy as [Hy | Hy].
  - congruence.
  - injection Hx as -> _. exfalso. eauto.
  - injection Hy as -> _. exfalso. eauto.
  - auto.
Qed.

Lemma in_batch_cons_0 (o : list Node) (bs : list (list Node)) (n : Node) :
  in_batch (o :: bs) 0 n <-> In n o.
Proof. reflexivity. Qed.

Lemma in_batch_cons_S (o : list Node) (bs : list (list Node)) (i : nat) (n : Node) :
  in_batch (o :: bs) (S i) n <-> in_batch bs i n.
Proof. reflexivity. Qed.

Lemma in_batch_nil (i : nat) (n : Node) : ~ in_batch [] i n.
Proof. unfold in_batch. destruct i; simpl; tauto. Qed.

(** Every batch is made of keys of the data, and every key is in a batch. *)
Lemma toposort_loop_members (fuel : nat) :
  forall d bs, toposort_loop fuel d = Batches bs ->
  forall n, (exists i, in_batch bs i n) <-> In n (map fst d).
Proof.
  induction fuel as [| fuel IH]; intros d bs; rewrite toposort_loop_eq.
  - destruct (extractable d) eqn:Hex; [| discriminate].
    destruct d; [| discriminate]. intros [= <-] n. split.
    + intros [i Hi]. exfalso. eapply in_batch_nil; eauto.
    + intros [].
  - destruct (extractable d) as [| x o] eqn:Hex.
    + destruct d; [| discriminate]. intros [= <-] n. split.
      * intros [i Hi]. exfalso. eapply in_batch_nil; eauto.
      * intros [].
    + cbv zeta.
      destruct (toposort_loop fuel (remove_nodes (x :: o) d)) as [bs' | |] eqn:Hrec;
        try discriminate.
      intros [= <-] n. specialize (IH _ _ Hrec n).
      rewrite remove_nodes_keys in IH. split.
      * intros [[| i] Hi].
        -- apply in_batch_cons_0 in Hi. rewrite <- Hex in Hi.
           apply extractable_In in Hi. apply in_map_iff. exists (n, []). auto.
        -- apply in_batch_cons_S in Hi. apply IH. eauto.
      * intros Hn. destruct (node_in n (x :: o)) eqn:Hno.
        -- exists 0. apply in_batch_cons_0. apply node_in_In. exact Hno.
        -- apply node_in_not_In in Hno. destruct IH as [_ IH].
           destruct (IH (conj Hn Hno)) as [i Hi]. exists (S i). exact Hi.
Qed.

(** A dependency is in an earlier batch than the node that depends on it. *)
Lemma toposort_loop_order (fuel : nat) :
  forall d bs, closed d -> toposort_loop fuel d = Batches bs ->
  forall a b, edge d a b ->
  forall i j, in_batch bs i b -> in_batch bs j a -> i < j.
Proof.
  induction fuel as [| fuel IH]; intros d bs Hcl; rewrite toposort_loop_eq.
  - destruct (extractable d) eqn:Hex; [| discriminate].
    destruct d; [| discriminate]. intros [= <-] a b _ i j Hi. 
    exfalso. eapply in_batch_nil; eauto.
  - destruct (extractable d) as [| x o] eqn:Hex.
    + destruct d; [| discriminate]. intros [= <-] a b _ i j Hi.
      exfalso. eapply in_batch_nil; eauto.
    + cbv zeta.
      destruct (toposort_loop fuel (remove_nodes (x :: o) d)) as [bs' | |] eqn:Hrec;
        try discriminate.
      intros [= <-] a b Hedge i j Hi Hj.
      pose proof (toposort_loop_members _ _ _ Hrec) as Hmem.
      destruct j as [| j].
      * exfalso. apply in_batch_cons_0 in Hj. rewrite <- Hex in Hj.
        apply extractable_In in Hj. destruct Hedge as [deps [Hin Hb]].
        destruct Hcl as [Hnd _].
        rewrite (NoDup_keys_unique _ _ _ _ Hnd Hin Hj) in Hb. destruct Hb.
      * destruct i as [| i]; [lia |].
        apply in_batch_cons_S in Hi. apply in_batch_cons_S in Hj.
        assert (Ha : In a (map fst (remove_nodes (x :: o) d))) by (apply Hmem; eauto).
        assert (Hb : In b (map fst (remove_nodes (x :: o) d))) by (apply Hmem; eauto).
        apply remove_nodes_keys in Ha. apply remove_nodes_keys in Hb.
        assert (Hlt : i < j).
        { apply (IH _ _ (remove_nodes_closed _ _ Hcl) Hrec a b); auto.
          apply remove_nodes_edge. tauto. }
        lia.
Qed.

(** A node is in at most one batch. *)
Lemma toposort_loop_disjoint (fuel : nat) :
  forall d bs, toposort_loop fuel d = Batches bs ->
  forall n i j, in_batch bs i n -> in_batch bs j n -> i = j.
Proof.
  induction fuel as [| fuel IH]; intros d bs; rewrite toposort_loop_eq.
  - destruct (extractable d) eqn:Hex; [| discriminate].
    destruct d; [| discriminate]. intros [= <-] n i j Hi.
    exfalso. eapply in_batch_nil; eauto.
  - destruct (extractable d) as [| x o] eqn:Hex.
    + destruct d; [| discriminate]. intros [= <-] n i j Hi.
      exfalso. eapply in_batch_nil; eauto.
    + cbv zeta.
      destruct (toposort_loop fuel (remove_nodes (x :: o) d)) as [bs' | |] eqn:Hrec;
        try discriminate.
      intros [= <-] n i j Hi Hj.
      pose proof (toposort_loop_members _ _ _ Hrec n) as Hmem.
      rewrite remove_nodes_keys in Hmem.
      destruct i as [| i]; destruct j as [| j]; auto.
      * exfalso. apply in_batch_cons_0 in Hi. apply in_batch_cons_S in Hj.
        assert (In n (map fst d) /\ ~ In n (x :: o)) by (apply Hmem; eauto). tauto.
      * exfalso. apply in_batch_cons_0 in Hj. apply in_batch_cons_S in Hi.
        assert (In n (map fst d) /\ ~ In n (x :: o)) by (apply Hmem; eauto). tauto.
      * f_equal. eapply IH; eauto.
Qed.

(** ** Cycles *)

Lemma clos_trans_incl (R R' : Node -> Node -> Prop) :
  (forall a b, R a b -> R' a b) ->
  forall a b, clos_trans Node R a b -> clos_trans Node R' a b.
Proof.
  intros Hincl a b Hab.
  induction Hab as [a b Hab | a b c _ IH1 _ IH2].
  - apply t_step. auto.
  - eapply t_trans; eauto.
Qed.

Lemma has_cycle_incl (g g' : Graph) :
  (forall a b, edge g a b -> edge g' a b) -> has_cycle g -> has_cycle g'.
Proof.
  intros Hincl [n Hn]. exists n. eapply clos_trans_incl; eauto.
Qed.

Lemma clos_trans_edge_key (d : Graph) (a b : Node) :
  clos_trans Node (edge d) a b -> In a (map fst d).
Proof.
  intros Hab. induction Hab as [a b [deps [Hin _]] | a c b _ IH _ _]; auto.
  apply in_map_iff. exists (a, deps). auto.
Qed.

Lemma chain_reach (R : Node -> Node -> Prop) :
  forall l1 x y l2, chain R x (l1 ++ y :: l2) ->
  clos_trans Node R x y /\ chain R y l2.
Proof.
  induction l1 as [| z l1 IH]; simpl; intros x y l2 [Hxy Hrest].
  - split; [apply t_step; exact Hxy | exact Hrest].
  - destruct (IH _ _ _ Hrest) as [Hzy Hch]. split; [| exact Hch].
    eapply t_trans; [apply t_step; exact Hxy | exact Hzy].
Qed.

(** When every key has a dependency among the keys, walks of any length exist. *)
Lemma chain_exists (d : Graph) :
  (forall a, In a (map fst d) -> exists b, edge d a b /\ In b (map fst d)) ->
  forall k a, In a (map fst d) ->
  exists l, length l = k /\ chain (edge d) a l /\ incl l (map fst d).
Proof.
  intros Hsucc. induction k as [| k IH]; intros a Ha.
  - exists []. repeat split. intros x [].
  - destruct (Hsucc a Ha) as [b [Hab Hb]].
    destruct (IH b Hb) as [l [Hlen [Hch Hincl]]].
    exists (b :: l). simpl. repeat split; auto.
    intros x [<- | Hx]; auto.
Qed.

(** Data that is not empty and from which nothing can be extracted has a cycle. *)
Lemma stuck_has_cycle (d : Graph) :
  closed d -> d <> [] -> extractable d = [] -> has_cycle d.
Proof.
  intros [Hnd Hcl] Hne Hex.
  assert (Hsucc : forall a, In a (map fst d) ->
                            exists b, edge d a b /\ In b (map fst d)).
  { intros a Ha. apply in_map_iff in Ha. destruct Ha as [[a0 deps] [Heq Hin]].
    simpl in Heq. subst a0. destruct deps as [| b deps].
    - apply extractable_In in Hin. rewrite Hex in Hin. destruct Hin.
    - exists b. split.
      + exists (b :: deps). split; [exact Hin | left; reflexivity].
      + eapply Hcl; [exact Hin | left; reflexivity]. }
  destruct d as [| [a0 deps0] d0]; [congruence |].
  assert (Ha0 : In a0 (map fst ((a0, deps0) :: d0))) by (left; reflexivity).
  destruct (chain_exists _ Hsucc (length (map fst ((a0, deps0) :: d0))) a0 Ha0)
    as [l [Hlen [Hch Hincl]]].
  assert (Hdup : ~ NoDup (a0 :: l)).
  { intros Hnodup.
    assert (Hle : length (a0 :: l) <= length (map fst ((a0, deps0) :: d0))).
    { apply NoDup_incl_length; [exact Hnodup |].
      intros x [<- | Hx]; auto. }
    simpl in Hle, Hlen. simpl in Hlen. lia. }
  assert (Hdec : decidable_eq Node).
  { intros x y. destruct (Node_eq_dec x y); [left | right]; assumption. }
  apply (not_NoDup Hdec) in Hdup.
  destruct Hdup as [a [l1 [l2 [l3 Heq]]]].
  exists a. destruct l1 as [| z l1]; simpl in Heq; injection Heq as <- ->.
  - apply (chain_reach _ l2 a0 a0 l3). exact Hch.
  - destruct (chain_reach _ _ _ _ _ Hch) as [_ Hch'].
    apply (chain_reach _ l2 a a l3). exact Hch'.
Qed.

(** The data that the loop reports as circular is a part of the graph it
    was given, and is stuck. *)
Lemma toposort_loop_circular (fuel : nat) :
  forall d r, closed d -> toposort_loop fuel d = Circular r ->
  closed r /\ r <> [] /\ extractable r = [] /\
  (forall a b, edge r a b -> edge d a b).
Proof.
  induction fuel as [| fuel IH]; intros d r Hcl; rewrite toposort_loop_eq.
  - destruct (extractable d) eqn:Hex; [| discriminate].
    destruct d; [discriminate |]. intros [= <-]. repeat split; auto; try apply Hcl.
    discriminate.
  - destruct (extractable d) as [| x o] eqn:Hex.
    + destruct d; [discriminate |]. intros [= <-].
      repeat split; auto; try apply Hcl. discriminate.
    + cbv zeta.
      destruct (toposort_loop fuel (remove_nodes (x :: o) d)) as [bs' | r' |] eqn:Hrec;
        try discriminate.
      intros [= <-].
      destruct (IH _ _ (remove_nodes_closed _ _ Hcl) Hrec) as [H1 [H2 [H3 H4]]].
      repeat split; auto; try apply H1.
      intros a b Hab. apply H4 in Hab. apply remove_nodes_edge in Hab. tauto.
Qed.

(** Along a walk the batch index goes down. *)
Lemma toposort_loop_order_trans (fuel : nat) (d : Graph) (bs : list (list Node)) :
  closed d -> toposort_loop fuel d = Batches bs ->
  forall a b, clos_trans Node (edge d) a b ->
  forall i j, in_batch bs i b -> in_batch bs j a -> i < j.
Proof.
  intros Hcl Hbs a b Hab.
  induction Hab as [a b Hab | a c b Hac IH1 Hcb IH2]; intros i j Hi Hj.
  - eapply toposort_loop_order; eauto.
  - assert (Hc : In c (map fst d)) by (eapply clos_trans_edge_key; eauto).
    apply (toposort_loop_members _ _ _ Hbs) in Hc. destruct Hc as [k Hk].
    specialize (IH1 k j Hk Hj). specialize (IH2 i k Hi Hk). lia.
Qed.

(** On closed data the loop yields batches exactly when there is no cycle. *)
Lemma toposort_loop_acyclic (d : Graph) :
  closed d -> acyclic d -> exists bs, toposort_loop (length d) d = Batches bs.
Proof.
  intros Hcl Hac.
  destruct (toposort_loop (length d) d) as [bs | r |] eqn:Hres.
  - eauto.
  - exfalso. destruct (toposort_loop_circular _ _ _ Hcl Hres) as [H1 [H2 [H3 H4]]].
    destruct (has_cycle_incl _ _ H4 (stuck_has_cycle _ H1 H2 H3)) as [n Hn].
    exact (Hac n Hn).
  - exfalso. exact (toposort_loop_fuel _ _ (le_n _) Hres).
Qed.

Lemma toposort_loop_cyclic (d : Graph) :
  closed d -> has_cycle d -> exists r, toposort_loop (length d) d = Circular r.
Proof.
  intros Hcl [n Hn].
  destruct (toposort_loop (length d) d) as [bs | r |] eqn:Hres.
  - exfalso.
    assert (Hkey : In n (map fst d)) by (eapply clos_trans_edge_key; eauto).
    apply (toposort_loop_members _ _ _ Hres) in Hkey. destruct Hkey as [k Hk].
    pose proof (toposort_loop_order_trans _ _ _ Hcl Hres n n Hn k k Hk Hk). lia.
  - eauto.
  - exfalso. exact (toposort_loop_fuel _ _ (le_n _) Hres).
Qed.

(** ** The entries handed to the layering loop *)

Lemma extra_items_In (keys deps : list Node) (n : Node) :
  In n (extra_items keys deps) <-> In n deps /\ ~ In n keys.
Proof.
  induction deps as [| d deps IH]; simpl; [tauto |].
  destruct (node_in d keys) eqn:Hk; simpl.
  - apply node_in_In in Hk. rewrite IH. split; [tauto |].
    intros [[<- | Hn] Hno]; tauto.
  - apply node_in_not_In in Hk.
    destruct (node_in d (extra_items keys deps)) eqn:Hr.
    + apply node_in_In in Hr. rewrite IH. split; [tauto |].
      intros [[<- | Hn] Hno]; [apply IH in Hr |]; tauto.
    + simpl. rewrite IH. split.
      * intros [<- | [Hn Hno]]; tauto.
      * intros [[<- | Hn] Hno]; tauto.
Qed.

Lemma extra_items_NoDup (keys deps : list Node) : NoDup (extra_items keys deps).
Proof.
  induction deps as [| d deps IH]; simpl; [constructor |].
  destruct (node_in d keys); simpl; [exact IH |].
  destruct (node_in d (extra_items keys deps)) eqn:Hr; [exact IH |].
  constructor; [| exact IH]. apply node_in_not_In. exact Hr.
Qed.

Lemma all_entries_edge (g : Graph) (a b : Node) :
  edge (all_entries g) a b <-> edge g a b.
Proof.
  unfold edge, all_entries. split.
  - intros [deps [Hin Hb]]. apply in_app_or in Hin. destruct Hin as [Hin | Hin].
    + eauto.
    + apply in_map_iff in Hin. destruct Hin as [n [[= <- <-] _]]. destruct Hb.
  - intros [deps [Hin Hb]]. exists deps. split; [apply in_or_app; auto | exact Hb].
Qed.

Lemma all_entries_closed (g : Graph) :
  NoDup (map fst g) -> closed (all_entries g).
Proof.
  intros Hnd. unfold all_entries. split.
  - rewrite map_app, map_map. simpl. rewrite map_id.
    assert (Happ : forall l1 l2 : list Node,
               NoDup l1 -> NoDup l2 -> (forall x, In x l2 -> ~ In x l1) ->
               NoDup (l1 ++ l2)).
    { induction l1 as [| x l1 IH]; simpl; intros l2 H1 H2 Hdis; [exact H2 |].
      inversion H1; subst. constructor.
      - intros Hin. apply in_app_or in Hin. destruct Hin as [Hin | Hin]; [tauto |].
        apply (Hdis x Hin). left. reflexivity.
      - apply IH; auto. intros y Hy Hy1. apply (Hdis y Hy). right. exact Hy1. }
    apply Happ; [exact Hnd | apply extra_items_NoDup |].
    intros x Hx. apply extra_items_In in Hx. tauto.
  - intros a deps b Hin Hb. rewrite map_app, map_map. simpl. rewrite map_id.
    apply in_app_or in Hin. destruct Hin as [Hin | Hin].
    + apply in_or_app. destruct (node_in b (map fst g)) eqn:Hk.
      * left. apply node_in_In. exact Hk.
      * right. apply extra_items_In. split; [| apply node_in_not_In; exact Hk].
        apply in_concat. exists deps. split; [| exact Hb].
        apply in_map_iff. exists (a, deps). auto.
    + apply in_map_iff in Hin. destruct Hin as [n [[= <- <-] _]]. destruct Hb.
Qed.

(** ** Construction of the graph *)

Lemma set_add_In (n x : Node) (s : list Node) :
  In x (set_add n s) <-> In x s \/ x = n.
Proof.
  unfold set_add. destruct (node_in n s) eqn:Hn.
  - apply node_in_In in Hn. split; [tauto |]. intros [Hx | ->]; auto.
  - rewrite in_app_iff. simpl. split; [intros [Hx | [<- | []]] | intros [Hx | ->]]; auto.
Qed.

Lemma graph_add_keys (g : Graph) (n d : Node) (k : Node) :
  In k (map fst (graph_add g n d)) <-> In k (map fst g) \/ k = n.
Proof.
  induction g as [| [k0 s] g IH]; simpl.
  - split; [intros [<- | []] | intros [[] | ->]]; auto.
  - destruct (Node_eqb k0 n) eqn:Heq; simpl.
    + apply Node_eqb_eq in Heq. subst k0. split; [tauto |].
      intros [[Hk | Hk] | ->]; auto.
    + rewrite IH. tauto.
Qed.

Lemma graph_add_NoDup (g : Graph) (n d : Node) :
  NoDup (map fst g) -> NoDup (map fst (graph_add g n d)).
Proof.
  induction g as [| [k0 s] g IH]; simpl; intros Hnd.
  - constructor; [intros [] | constructor].
  - inversion Hnd as [| ? ? Hnotin Hnd']; subst.
    destruct (Node_eqb k0 n) eqn:Heq; simpl.
    + constructor; assumption.
    + constructor; [| auto]. rewrite graph_add_keys. intros [Hk | ->]; [tauto |].
      rewrite Node_eqb_refl in Heq. discriminate.
Qed.

Lemma graph_add_edge (g : Graph) (n d a b : Node) :
  edge (graph_add g n d) a b <-> edge g a b \/ (a = n /\ b = d).
Proof.
  unfold edge. induction g as [| [k0 s] g IH]; simpl.
  - split.
    + intros [deps [[[= <- <-] | []] Hb]]. apply set_add_In in Hb.
      destruct Hb as [[] | ->]. auto.
    + intros [[deps [[] _]] | [-> ->]]. exists (set_add d []). split; [auto |].
      apply set_add_In. auto.
  - destruct (Node_eqb k0 n) eqn:Heq.
    + apply Node_eqb_eq in Heq. subst k0. split.
      * intros [deps [[[= <- <-] | Hin] Hb]].
        -- apply set_add_In in Hb. destruct Hb as [Hb | ->]; [left | right; auto].
           exists s. split; [left; reflexivity | exact Hb].
        -- left. exists deps. split; [right; exact Hin | exact Hb].
      * intros [[deps [[[= <- <-] | Hin] Hb]] | [-> ->]].
        -- exists (set_add d s). split; [left; reflexivity |].
           apply set_add_In. auto.
        -- exists deps. split; [right; exact Hin | exact Hb].
        -- exists (set_add d s). split; [left; reflexivity |].
           apply set_add_In. auto.
    + split.
      * intros [deps [[[= <- <-] | Hin] Hb]].
        -- left. exists s. split; [left; reflexivity | exact Hb].
        -- assert (Hex : exists deps, In (a, deps) (graph_add g n d) /\ In b deps) by eauto.
           apply IH in Hex. destruct Hex as [[deps' [Hin' Hb']] | Hnew]; [left | right; exact Hnew].
           exists deps'. split; [right; exact Hin' | exact Hb'].
      * intros [[deps [[[= <- <-] | Hin] Hb]] | Hnew].
        -- exists s. split; [left; reflexivity | exact Hb].
        -- assert (Hex : exists deps, In (a, deps) (graph_add g n d) /\ In b deps).
           { apply IH. left. eauto. }
           destruct Hex as [deps' [Hin' Hb']]. exists deps'. split; [right; exact Hin' | exact Hb'].
        -- assert (Hex : exists deps, In (a, deps) (graph_add g n d) /\ In b deps).
           { apply IH. right. exact Hnew. }
           destruct Hex as [deps' [Hin' Hb']]. exists deps'. split; [right; exact Hin' | exact Hb'].
Qed.

Lemma add_dependencies_NoDup (node : Node) (deps : list Job) :
  forall g, NoDup (map fst g) -> NoDup (map fst (add_dependencies [] node deps g)).
Proof.
  unfold add_dependencies. induction deps as [| dep deps IH]; simpl; intros g Hnd.
  - exact Hnd.
  - apply IH. apply graph_add_NoDup. exact Hnd.
Qed.

Lemma add_dependencies_edge (node : Node) (deps : list Job) :
  forall g a b,
  edge (add_dependencies [] node deps g) a b <->
  edge g a b \/
  (a = node /\ exists dep, In dep deps /\ b = mkNode (job_name dep) dep).
Proof.
  unfold add_dependencies. induction deps as [| dep deps IH]; simpl; intros g a b.
  - split; [auto | intros [Hab | [_ [dep [[] _]]]]; exact Hab].
  - rewrite IH, graph_add_edge. split.
    + intros [[Hab | [-> ->]] | [-> [dep' [Hin ->]]]]; eauto 6.
    + intros [Hab | [-> [dep' [[<- | Hin] ->]]]]; eauto 6.
Qed.

Lemma build_graph_from_NoDup (jobs : list (string * JobEntry)) :
  forall g, NoDup (map fst g) ->
  NoDup (map fst (fold_left
    (fun g item =>
       add_dependencies [] (dict_get String.eqb [] (fst item)
                                     (mkNode (fst item) (entry_job (snd item))))
                        (entry_dependencies (snd item)) g)
    jobs g)).
Proof.
  induction jobs as [| item jobs IH]; simpl; intros g Hnd; [exact Hnd |].
  apply IH. apply add_dependencies_NoDup. exact Hnd.
Qed.

Lemma build_graph_NoDup (jobs : list (string * JobEntry)) :
  NoDup (map fst (build_graph [] jobs)).
Proof. apply build_graph_from_NoDup. constructor. Qed.

Lemma build_graph_from_edge (jobs : list (string * JobEntry)) :
  forall g a b,
  edge (fold_left
    (fun g item =>
       add_dependencies [] (dict_get String.eqb [] (fst item)
                                     (mkNode (fst item) (entry_job (snd item))))
                        (entry_dependencies (snd item)) g)
    jobs g) a b <->
  edge g a b \/
  exists key job_instance dependency,
    In (key, job_instance) jobs /\
    In dependency (entry_dependencies job_instance) /\
    a = mkNode key (entry_job job_instance) /\
    b = mkNode (job_name dependency) dependency.
Proof.
  induction jobs as [| [nm e] jobs IH]; simpl; intros g a b.
  - split; [auto | intros [Hab | [? [? [? [[] _]]]]]; exact Hab].
  - rewrite IH, add_dependencies_edge. split.
    + intros [[Hab | [-> [dep [Hin ->]]]] | [nm' [e' [dep [Hin [Hd [-> ->]]]]]]].
      * auto.
      * right. exists nm, e, dep. auto.
      * right. exists nm', e', dep. auto.
    + intros [Hab | [nm' [e' [dep [[[= <- <-] | Hin] [Hd [-> ->]]]]]]].
      * auto.
      * left. right. split; [reflexivity |]. exists dep. auto.
      * right. exists nm', e', dep. auto.
Qed.

(** The edges of the graph are the declared dependencies, and nothing else. *)
Lemma build_graph_edge (wf : Workflow) (a b : Node) :
  edge (build_graph [] (jobs wf)) a b <-> depends_on wf a b.
Proof.
  unfold build_graph, depends_on. rewrite build_graph_from_edge. split.
  - intros [[deps [[] _]] | Hdep]. exact Hdep.
  - auto.
Qed.

(** ** Layering of a graph *)

Lemma toposort_never_out_of_fuel (g : Graph) : toposort g <> LayeringFuel.
Proof. unfold toposort. apply toposort_loop_fuel. apply le_n. Qed.

Lemma toposort_acyclic (g : Graph) :
  NoDup (map fst g) -> acyclic g -> exists bs, toposort g = Batches bs.
Proof.
  intros Hnd Hac. apply toposort_loop_acyclic.
  - apply all_entries_closed. exact Hnd.
  - intros n Hn. apply (Hac n).
    eapply clos_trans_incl; [| exact Hn]. intros a b. apply all_entries_edge.
Qed.

Lemma toposort_cyclic (g : Graph) :
  NoDup (map fst g) -> has_cycle g -> exists r, toposort g = Circular r.
Proof.
  intros Hnd Hcyc. apply toposort_loop_cyclic.
  - apply all_entries_closed. exact Hnd.
  - eapply has_cycle_incl; [| exact Hcyc]. intros a b. apply all_entries_edge.
Qed.

Lemma toposort_order (g : Graph) (bs : list (list Node)) :
  NoDup (map fst g) -> toposort g = Batches bs ->
  forall a b, edge g a b ->
  (exists i j, in_batch bs i b /\ in_batch bs j a) /\
  (forall i j, in_batch bs i b -> in_batch bs j a -> i < j).
Proof.
  intros Hnd Hbs a b Hab. pose proof (all_entries_closed g Hnd) as Hcl.
  assert (Hab' : edge (all_entries g) a b) by (apply all_entries_edge; exact Hab).
  split.
  - assert (Ha : In a (map fst (all_entries g))).
    { destruct Hab' as [deps [Hin _]]. apply in_map_iff. exists (a, deps). auto. }
    assert (Hb : In b (map fst (all_entries g))).
    { destruct Hab' as [deps [Hin Hb]]. destruct Hcl as [_ Hcl]. eapply Hcl; eauto. }
    apply (toposort_loop_members _ _ _ Hbs) in Ha.
    apply (toposort_loop_members _ _ _ Hbs) in Hb.
    destruct Ha as [j Hj]. destruct Hb as [i Hi]. eauto.
  - eapply toposort_loop_order; eauto.
Qed.

(** ** Computation of the metadata *)

Lemma compute_unset (wf : Workflow) :
  _metadata wf = None ->
  _compute_workflow_metadata wf =
  match toposort (build_graph [] (jobs wf)) with
  | Batches bs =>
      let m := mkMetadata [] bs (build_graph [] (jobs wf)) in
      (Returned (Some m), with_metadata wf (Some m))
  | Circular r => (Raised (CircularDependencyError r), wf)
  | LayeringFuel => (OutOfFuel, wf)
  end.
Proof.
  intros Hnone. unfold _compute_workflow_metadata, metadata, metadata_setter.
  rewrite Hnone. simpl. destruct (toposort (build_graph [] (jobs wf))); reflexivity.
Qed.

Lemma compute_set (wf : Workflow) (m : Metadata) :
  _metadata wf = Some m ->
  _compute_workflow_metadata wf = (Raised ValueError_metadata_already_exists, wf).
Proof.
  intros Hsome. unfold _compute_workflow_metadata, metadata.
  rewrite Hsome. reflexivity.
Qed.

(** The node list of a computed metadata is always empty: [node_dict] is
    never written to. *)
Lemma computed_nodes_empty (wf wf' : Workflow) (m : Metadata) :
  _metadata wf = None ->
  _compute_workflow_metadata wf = (Returned (Some m), wf') ->
  nodes m = [].
Proof.
  intros Hnone. rewrite (compute_unset wf Hnone).
  destruct (toposort (build_graph [] (jobs wf))); [| discriminate | discriminate].
  cbv zeta. intros [= <- _]. reflexivity.
Qed.

(** Whatever [_compute_workflow_metadata] raises, it leaves the workflow alone. *)
Lemma compute_raised_unchanged (wf wf' : Workflow) (e : Exn) :
  _compute_workflow_metadata wf = (Raised e, wf') -> wf' = wf.
Proof.
  destruct (_metadata wf) as [m |] eqn:Hm.
  - rewrite (compute_set wf m Hm). intros [= _ <-]. reflexivity.
  - rewrite (compute_unset wf Hm).
    destruct (toposort (build_graph [] (jobs wf))); cbv zeta; intros [=]; auto.
Qed.

(** ** Registration *)

Lemma dict_mem_In {V : Type} (d : list (string * V)) (k : string) :
  dict_mem String.eqb d k = true <-> exists v, In (k, v) d.
Proof.
  induction d as [| [k' v'] d IH]; simpl.
  - split; [discriminate | intros [v []]].
  - rewrite orb_true_iff, IH, String.eqb_eq. split.
    + intros [-> | [v Hv]]; eauto.
    + intros [v [[= -> ->] | Hv]]; eauto.
Qed.

Lemma as_jobs_PJob (l : list Job) : as_jobs (map PJob l) = Some l.
Proof. induction l as [| j l IH]; simpl; [| rewrite IH]; reflexivity. Qed.

Lemma forallb_isinstance_PJob (l : list Job) :
  forallb isinstance_Job (map PJob l) = true.
Proof. induction l as [| j l IH]; simpl; auto. Qed.

(** ** Traces *)

Lemma runs_of_app (a b : list Event) : runs_of (a ++ b) = runs_of a ++ runs_of b.
Proof. apply flat_map_app. Qed.

Lemma kills_of_app (a b : list Event) : kills_of (a ++ b) = kills_of a ++ kills_of b.
Proof. apply flat_map_app. Qed.

Lemma runs_of_CallRun (js : list Job) : runs_of (map CallRun js) = js.
Proof. induction js as [| j js IH]; simpl; [| rewrite IH]; reflexivity. Qed.

Lemma kills_of_CallKill (js : list Job) : kills_of (map CallKill js) = js.
Proof. induction js as [| j js IH]; simpl; [| rewrite IH]; reflexivity. Qed.

Lemma runs_of_CallKill (js : list Job) : runs_of (map CallKill js) = [].
Proof. induction js as [| j js IH]; simpl; auto. Qed.

Lemma runs_of_CallStatus (obs : list (Job * JobStatus)) :
  runs_of (map (fun p => CallStatus (fst p) (snd p)) obs) = [].
Proof. induction obs as [| p obs IH]; simpl; auto. Qed.

Lemma kills_of_CallStatus (obs : list (Job * JobStatus)) :
  kills_of (map (fun p => CallStatus (fst p) (snd p)) obs) = [].
Proof. induction obs as [| p obs IH]; simpl; auto. Qed.

Lemma is_errored_not_finished (s : JobStatus) :
  is_errored s = true -> is_finished s = false.
Proof. destruct s; simpl; auto; discriminate. Qed.

(** ** Execution of a batch *)

Section Execution.
Context {E : Type} `{JobHandle E}.

Lemma kill_jobs_trace (jobs : list Job) :
  forall w : World E, trace (_kill_jobs jobs w) = trace w ++ map CallKill jobs.
Proof.
  unfold _kill_jobs. induction jobs as [| j jobs IH]; simpl; intros w.
  - rewrite app_nil_r. reflexivity.
  - rewrite IH. simpl. rewrite <- app_assoc. reflexivity.
Qed.

Lemma start_jobs_trace (jobs : list Job) :
  forall w : World E, trace (start_jobs jobs w) = trace w ++ map CallRun jobs.
Proof.
  unfold start_jobs. induction jobs as [| j jobs IH]; simpl; intros w.
  - rewrite app_nil_r. reflexivity.
  - rewrite IH. simpl. rewrite <- app_assoc. reflexivity.
Qed.

Lemma call_status_trace (j : Job) (w : World E) :
  trace (snd (call_status j w)) = trace w ++ [CallStatus j (fst (call_status j w))].
Proof. unfold call_status. destruct (job_status j (env w)). reflexivity. Qed.

(** One pass, told by what it observed. *)
Lemma poll_jobs_spec (jobs : list Job) :
  forall (st : Poll) (w : World E),
  let obs := statuses_of_pass jobs w in
  let st' := fst (poll_jobs jobs st w) in
  let w' := snd (poll_jobs jobs st w) in
  all_completed st' = all_completed st && forallb (fun p => is_finished (snd p)) obs /\
  any_errored st' = any_errored st || existsb (fun p => is_errored (snd p)) obs /\
  errored_jobs st' = errored_jobs st ++ errored_names jobs w /\
  trace w' = trace w ++ map (fun p => CallStatus (fst p) (snd p)) obs.
Proof.
  unfold errored_names.
  induction jobs as [| j jobs IH]; simpl; intros st w.
  - rewrite andb_true_r, orb_false_r, !app_nil_r. auto.
  - unfold poll_job. pose proof (call_status_trace j w) as Htr.
    destruct (call_status j w) as [s w1]. simpl in Htr.
    match goal with |- context [poll_jobs jobs ?st1 w1] =>
      specialize (IH st1 w1); destruct (poll_jobs jobs st1 w1) as [st2 w2] end.
    simpl in IH. destruct IH as [H1 [H2 [H3 H4]]]. simpl.
    rewrite H1, H2, H3, H4, Htr. unfold is_finished, is_errored.
    destruct s; simpl; rewrite <- ?app_assoc; simpl;
      rewrite ?andb_false_r, ?orb_true_r; auto.
Qed.

Lemma poll_jobs_trace (jobs : list Job) (st : Poll) (w : World E) :
  trace (snd (poll_jobs jobs st w)) =
  trace w ++ map (fun p => CallStatus (fst p) (snd p)) (statuses_of_pass jobs w).
Proof. apply (poll_jobs_spec jobs st w). Qed.

(** A pass in which some job reports an error: every job of the batch is
    killed and the names of the jobs that reported an error are raised. *)
Lemma wait_loop_errored (fuel : nat) (jobs : list Job) (w : World E) :
  existsb (fun p => is_errored (snd p)) (statuses_of_pass jobs w) = true ->
  wait_loop (S fuel) jobs w =
  (Raised (ValueError_jobs_errored (errored_names jobs w)),
   _kill_jobs jobs (snd (poll_jobs jobs (mkPoll true false []) w))).
Proof.
  intros Herr. simpl.
  destruct (poll_jobs_spec jobs (mkPoll true false []) w) as [H1 [H2 [H3 _]]].
  destruct (poll_jobs jobs (mkPoll true false []) w) as [st w1].
  simpl in *. rewrite Herr in H2.
  assert (Hall : all_completed st = false).
  { rewrite H1. apply not_true_is_false. intros Hall.
    rewrite forallb_forall in Hall. apply existsb_exists in Herr.
    destruct Herr as [p [Hp Hperr]]. specialize (Hall p Hp).
    apply is_errored_not_finished in Hperr. congruence. }
  rewrite Hall, H2, H3. reflexivity.
Qed.

(** Quiet passes are passes that the loop sleeps through. *)
Lemma wait_loop_quiet (k : nat) (jobs : list Job) :
  forall (w wk : World E) (fuel : nat),
  after_quiet_passes k jobs w = Some wk ->
  wait_loop (k + fuel) jobs w = wait_loop fuel jobs wk.
Proof.
  induction k as [| k IH]; simpl; intros w wk fuel.
  - intros [= ->]. reflexivity.
  - destruct (poll_jobs jobs (mkPoll true false []) w) as [st w1].
    destruct (all_completed st); simpl; [discriminate |].
    destruct (any_errored st); simpl; [discriminate |].
    apply IH.
Qed.

Lemma after_quiet_passes_trace (k : nat) (jobs : list Job) :
  forall w wk : World E,
  after_quiet_passes k jobs w = Some wk ->
  runs_of (trace wk) = runs_of (trace w) /\
  kills_of (trace wk) = kills_of (trace w).
Proof.
  induction k as [| k IH]; simpl; intros w wk.
  - intros [= ->]. auto.
  - pose proof (poll_jobs_trace jobs (mkPoll true false []) w) as Htr.
    destruct (poll_jobs jobs (mkPoll true false []) w) as [st w1]. simpl in Htr.
    destruct (all_completed st || any_errored st); [discriminate |].
    intros Hk. apply IH in Hk. destruct Hk as [Hr Hk]. rewrite Hr, Hk.
    simpl. rewrite Htr, !runs_of_app, !kills_of_app.
    rewrite runs_of_CallStatus, kills_of_CallStatus. simpl.
    rewrite !app_nil_r. auto.
Qed.

(** More fuel does not change an answer. *)
Lemma wait_loop_more_fuel (fuel : nat) (jobs : list Job) :
  forall (w w' : World E) (o : Outcome bool) (fuel' : nat),
  wait_loop fuel jobs w = (o, w') -> o <> OutOfFuel -> fuel <= fuel' ->
  wait_loop fuel' jobs w = (o, w').
Proof.
  induction fuel as [| fuel IH]; simpl; intros w w' o fuel' Hrun Ho Hle.
  - injection Hrun as <- _. congruence.
  - destruct fuel' as [| fuel']; [lia |]. simpl.
    destruct (poll_jobs jobs (mkPoll true false []) w) as [st w1].
    destruct (all_completed st); [exact Hrun |].
    destruct (any_errored st); [exact Hrun |].
    apply (IH _ _ _ _ Hrun Ho). lia.
Qed.

Lemma run_batches_more_fuel (fuel fuel' : nat) (batches : list (list Node)) :
  forall (w w' : World E) (o : Outcome unit),
  run_batches fuel batches w = (o, w') -> o <> OutOfFuel -> fuel <= fuel' ->
  run_batches fuel' batches w = (o, w').
Proof.
  induction batches as [| b batches IH]; simpl; intros w w' o Hrun Ho Hle.
  - exact Hrun.
  - unfold bind, _execute_and_wait in *.
    destruct (wait_loop fuel (map job b) (start_jobs (map job b) w)) as [o1 w1] eqn:H1.
    assert (Ho1 : o1 <> OutOfFuel).
    { intros ->. injection Hrun as <- _. congruence. }
    rewrite (wait_loop_more_fuel _ _ _ _ _ _ H1 Ho1 Hle).
    destruct o1; [eapply IH; eauto | exact Hrun | congruence].
Qed.

Lemma run_batches_app (fuel : nat) (pre batches : list (list Node)) :
  forall w w1 : World E,
  run_batches fuel pre w = (Returned tt, w1) ->
  run_batches fuel (pre ++ batches) w = run_batches fuel batches w1.
Proof.
  induction pre as [| b pre IH]; simpl; intros w w1.
  - unfold ret. intros [= ->]. reflexivity.
  - unfold bind. destruct (_execute_and_wait fuel (map job b) w) as [[? | ? |] w0];
      try discriminate. apply IH.
Qed.

End Execution.

(** ** The run loop *)

Section Loop.
Context {E : Type} `{JobHandle E}.

Lemma run_loop_step (fuel : nat) (wf : Workflow) (m : Metadata)
    (first_run : bool) (w : World E) :
  _metadata wf = Some m -> first_run || loop wf = true ->
  run_loop (S fuel) wf first_run w =
  match run_batches fuel (topological_order m) w with
  | (Returned _, w') => run_loop fuel wf false w'
  | (Raised e, w') => (Raised e, w')
  | (OutOfFuel, w') => (OutOfFuel, w')
  end.
Proof.
  intros Hm Hcond. simpl. rewrite Hcond.
  unfold metadata_topological_order, metadata. rewrite Hm. reflexivity.
Qed.

Lemma run_loop_stops (fuel : nat) (wf : Workflow) (w : World E) :
  loop wf = false -> run_loop fuel wf false w = (Returned tt, w).
Proof. intros Hloop. destruct fuel; simpl; rewrite Hloop; reflexivity. Qed.

Lemma run_loop_first_run (fuel : nat) (wf : Workflow) (first_run : bool) (w : World E) :
  loop wf = true -> run_loop fuel wf first_run w = run_loop fuel wf true w.
Proof.
  intros Hloop. destruct fuel; simpl; rewrite Hloop, orb_true_r; reflexivity.
Qed.

(** After [n] completed passes a looping workflow is where it started: at
    the head of its loop, about to walk the batch sequence again. *)
Lemma run_loop_passes (wf : Workflow) (m : Metadata) (f : nat) :
  _metadata wf = Some m -> loop wf = true ->
  forall (n : nat) (w wn : World E),
  passes f (topological_order m) n w wn ->
  forall fuel, f <= fuel ->
  run_loop (n + fuel) wf true w = run_loop fuel wf true wn.
Proof.
  intros Hm Hloop n w wn Hpasses.
  induction Hpasses as [w | n w w1 w2 Hrun _ IH]; intros fuel Hle.
  - reflexivity.
  - simpl plus. rewrite (run_loop_step _ _ m) by auto.
    rewrite (run_batches_more_fuel f (n + fuel) _ _ _ _ Hrun) by (congruence || lia).
    rewrite run_loop_first_run by exact Hloop. apply IH. exact Hle.
Qed.

(** A pass that raises ends the run with what it raised, first pass or not. *)
Lemma run_loop_raises (wf : Workflow) (m : Metadata) (f n : nat)
    (w wn we : World E) (e : Exn) :
  _metadata wf = Some m ->
  n = 0 \/ loop wf = true ->
  passes f (topological_order m) n w wn ->
  run_batches f (topological_order m) wn = (Raised e, we) ->
  forall fuel, f < fuel ->
  run_loop (n + fuel) wf true w = (Raised e, we).
Proof.
  intros Hm Hn Hpasses Hraise fuel Hlt.
  assert (Hlast : run_loop fuel wf true wn = (Raised e, we)).
  { destruct fuel as [| fuel]; [lia |].
    rewrite (run_loop_step _ _ m) by auto.
    rewrite (run_batches_more_fuel f fuel _ _ _ _ Hraise) by (congruence || lia).
    reflexivity. }
  destruct Hn as [-> | Hloop].
  - inversion Hpasses; subst. exact Hlast.
  - rewrite (run_loop_passes wf m f Hm Hloop n w wn Hpasses) by lia. exact Hlast.
Qed.

(** ** Jobs that never report an error *)

Section NoError.
Hypothesis no_error : forall (j : Job) (e : E), is_errored (fst (job_status j e)) = false.

Lemma statuses_of_pass_no_error (jobs : list Job) :
  forall w : World E,
  existsb (fun p => is_errored (snd p)) (statuses_of_pass jobs w) = false.
Proof.
  induction jobs as [| j jobs IH]; simpl; intros w; [reflexivity |].
  unfold call_status. pose proof (no_error j (env w)) as Hj.
  destruct (job_status j (env w)) as [s e]. simpl in *. rewrite Hj. apply IH.
Qed.

Lemma wait_loop_no_error (fuel : nat) (jobs : list Job) :
  forall (w w' : World E) (e : Exn), wait_loop fuel jobs w <> (Raised e, w').
Proof.
  induction fuel as [| fuel IH]; simpl; intros w w' e; [discriminate |].
  destruct (poll_jobs_spec jobs (mkPoll true false []) w) as [_ [H2 _]].
  destruct (poll_jobs jobs (mkPoll true false []) w) as [st w1]. simpl in H2.
  rewrite statuses_of_pass_no_error in H2. rewrite H2.
  destruct (all_completed st); [discriminate | apply IH].
Qed.

Lemma run_batches_no_error (fuel : nat) (batches : list (list Node)) :
  forall (w w' : World E) (e : Exn), run_batches fuel batches w <> (Raised e, w').
Proof.
  induction batches as [| b batches IH]; simpl; intros w w' e; [discriminate |].
  unfold bind, _execute_and_wait.
  destruct (wait_loop fuel (map job b) (start_jobs (map job b) w)) as [[? | e1 |] w1] eqn:H1.
  - apply IH.
  - exfalso. exact (wait_loop_no_error _ _ _ _ _ H1).
  - discriminate.
Qed.

(** A looping workflow whose jobs never report an error gives no answer,
    however many iterations it is allowed. *)
Lemma run_loop_no_answer (wf : Workflow) (m : Metadata) :
  _metadata wf = Some m -> loop wf = true ->
  forall (fuel : nat) (first_run : bool) (w : World E),
  fst (run_loop fuel wf first_run w) = OutOfFuel.
Proof.
  intros Hm Hloop. induction fuel as [| fuel IH]; intros first_run w.
  - simpl. rewrite Hloop, orb_true_r. reflexivity.
  - rewrite (run_loop_step _ _ m) by (auto; rewrite Hloop; apply orb_true_r).
    destruct (run_batches fuel (topological_order m) w) as [[? | e |] w1] eqn:H1.
    + apply IH.
    + exfalso. exact (run_batches_no_error _ _ _ _ _ H1).
    + reflexivity.
Qed.

End NoError.

End Loop.

(** ** A computed metadata *)

Lemma compute_returned (wf wf' : Workflow) (m : Metadata) :
  _compute_workflow_metadata wf = (Returned (Some m), wf') ->
  _metadata wf = None /\ wf' = with_metadata wf (Some m) /\
  toposort (build_graph [] (jobs wf)) = Batches (topological_order m).
Proof.
  destruct (_metadata wf) as [m0 |] eqn:Hm.
  - rewrite (compute_set wf m0 Hm). discriminate.
  - rewrite (compute_unset wf Hm).
    destruct (toposort (build_graph [] (jobs wf))); cbv zeta; intros [=]; subst; auto.
Qed.

Lemma toposort_batches_acyclic (g : Graph) (bs : list (list Node)) :
  NoDup (map fst g) -> toposort g = Batches bs -> acyclic g.
Proof.
  intros Hnd Hbs n Hn.
  destruct (toposort_cyclic g Hnd (ex_intro _ n Hn)) as [r Hr]. congruence.
Qed.

(** * The claims *)

(** C1 (the code departs from the claim).  The claim: after metadata
    computation the node of every registered job is in exactly one batch and
    [metadata.nodes] holds the nodes of all registered jobs; two jobs X and
    Y without dependencies make one batch of two.  The code: a job enters
    the graph only as one end of a dependency, and [node_dict] is never
    written to.  For X and Y the computed node list, batch sequence and
    graph are all empty, and a run returns without having started a job. *)
Theorem C1_independent_jobs_are_left_out :
  let m := mkMetadata [] [] [] in
  _compute_workflow_metadata workflow_XY =
    (Returned (Some m), with_metadata workflow_XY (Some m)) /\
  forall (E : Type) (H : JobHandle E) (fuel : nat) (w : World E),
    run (S fuel) workflow_XY w = (Returned tt, with_metadata workflow_XY (Some m), w).
Proof.
  split; [reflexivity |]. intros E H fuel w. destruct fuel; reflexivity.
Qed.

(** C2.  For every workflow whose dependencies have no cycle, metadata
    computation yields a batch sequence in which, whenever the node of a job
    depends on the node of another, both nodes are in a batch and every
    batch that holds the dependency comes strictly before every batch that
    holds the dependent. *)
Theorem C2_dependency_in_earlier_batch (wf : Workflow) :
  _metadata wf = None ->
  (forall n, ~ clos_trans Node (depends_on wf) n n) ->
  exists m,
    _compute_workflow_metadata wf = (Returned (Some m), with_metadata wf (Some m)) /\
    forall a b, depends_on wf a b ->
      (exists i j, in_batch (topological_order m) i b /\
                   in_batch (topological_order m) j a) /\
      (forall i j, in_batch (topological_order m) i b ->
                   in_batch (topological_order m) j a -> i < j).
Proof.
  intros Hnone Hacyclic.
  assert (Hac : acyclic (build_graph [] (jobs wf))).
  { intros n Hn. apply (Hacyclic n). eapply clos_trans_incl; [| exact Hn].
    intros a b. apply build_graph_edge. }
  destruct (toposort_acyclic _ (build_graph_NoDup (jobs wf)) Hac) as [bs Hbs].
  exists (mkMetadata [] bs (build_graph [] (jobs wf))). split.
  - rewrite (compute_unset wf Hnone), Hbs. reflexivity.
  - intros a b Hdep. simpl.
    apply (toposort_order _ _ (build_graph_NoDup (jobs wf)) Hbs).
    apply build_graph_edge. exact Hdep.
Qed.

Lemma workflow_ABC_acyclic : forall n, ~ clos_trans Node (depends_on workflow_ABC) n n.
Proof.
  intros n Hn.
  apply (toposort_batches_acyclic (build_graph [] (jobs workflow_ABC))
           [[mkNode "A" job_A]; [mkNode "B" job_B]; [mkNode "C" job_C]]
           (build_graph_NoDup _) eq_refl n).
  eapply clos_trans_incl; [| exact Hn]. intros a b. apply build_graph_edge.
Qed.

Lemma C2_dependency_in_earlier_batch_witness :
  exists m,
    _compute_workflow_metadata workflow_ABC =
      (Returned (Some m), with_metadata workflow_ABC (Some m)) /\
    forall a b, depends_on workflow_ABC a b ->
      (exists i j, in_batch (topological_order m) i b /\
                   in_batch (topological_order m) j a) /\
      (forall i j, in_batch (topological_order m) i b ->
                   in_batch (topological_order m) j a -> i < j).
Proof.
  apply (C2_dependency_in_earlier_batch workflow_ABC).
  - reflexivity.
  - exact workflow_ABC_acyclic.
Defined.

Lemma run_computed {E : Type} {H : JobHandle E} (wf wf' : Workflow) (m : Metadata)
    (fuel : nat) (w : World E) :
  _compute_workflow_metadata wf = (Returned (Some m), wf') ->
  run fuel wf w = (fst (run_loop fuel wf' true w), wf', snd (run_loop fuel wf' true w)).
Proof.
  intros Hc. unfold run. rewrite Hc. destruct (run_loop fuel wf' true w). reflexivity.
Qed.

(** C3.  In a run that has come to a batch (after [n] completed passes and
    the batches [pre] of the current pass), if after [k] polling passes
    without an answer some job of the batch reports failed or undetermined,
    then the run raises the error that carries the names of exactly the jobs
    that reported failed or undetermined in that pass, every job of the
    batch has been sent a kill, and the jobs of the batch are the last that
    were started: nothing of the batches [rest] is. *)
Theorem C3_failed_batch_killed_run_ends {E : Type} {H : JobHandle E}
    (wf wf' : Workflow) (m : Metadata)
    (pre : list (list Node)) (batch : list Node) (rest : list (list Node))
    (n f k : nat) (w0 wp w wk : World E) :
  _compute_workflow_metadata wf = (Returned (Some m), wf') ->
  topological_order m = pre ++ batch :: rest ->
  n = 0 \/ loop wf = true ->
  passes f (topological_order m) n w0 wp ->
  run_batches f pre wp = (Returned tt, w) ->
  after_quiet_passes k (map job batch) (start_jobs (map job batch) w) = Some wk ->
  existsb (fun p => is_errored (snd p)) (statuses_of_pass (map job batch) wk) = true ->
  k < f ->
  forall fuel, f < fuel ->
  exists w_end,
    run (n + fuel) wf w0 =
      (Raised (ValueError_jobs_errored (errored_names (map job batch) wk)), wf', w_end) /\
    (forall nm, In nm (errored_names (map job batch) wk) <->
                exists j s, In (j, s) (statuses_of_pass (map job batch) wk) /\
                            is_errored s = true /\ job_name j = nm) /\
    kills_of (trace w_end) = kills_of (trace w) ++ map job batch /\
    runs_of (trace w_end) = runs_of (trace w) ++ map job batch.
Proof.
  intros Hc Horder Hn Hpasses Hpre Hquiet Herr Hk fuel Hfuel.
  destruct (compute_returned _ _ _ Hc) as [Hnone [-> _]].
  set (jobs_ := map job batch) in *.
  set (w1 := snd (poll_jobs jobs_ (mkPoll true false []) wk)).
  exists (_kill_jobs jobs_ w1).
  assert (Hbatch : run_batches f (topological_order m) wp =
                   (Raised (ValueError_jobs_errored (errored_names jobs_ wk)),
                    _kill_jobs jobs_ w1)).
  { rewrite Horder, (run_batches_app f pre (batch :: rest) wp w Hpre). simpl.
    unfold bind, _execute_and_wait. fold jobs_.
    replace f with (k + S (f - S k)) by lia.
    rewrite (wait_loop_quiet k jobs_ _ wk _ Hquiet).
    rewrite (wait_loop_errored _ jobs_ wk Herr). reflexivity. }
  repeat split.
  - rewrite (run_computed _ _ m _ _ Hc).
    rewrite (run_loop_raises (with_metadata wf (Some m)) m f n w0 wp _ _
               eq_refl Hn Hpasses Hbatch fuel Hfuel). reflexivity.
  - unfold errored_names. intros Hin. apply in_map_iff in Hin.
    destruct Hin as [[j s] [Hnm Hin]]. apply filter_In in Hin. simpl in *.
    exists j, s. tauto.
  - intros [j [s [Hin [Hs Hnm]]]]. unfold errored_names. apply in_map_iff.
    exists (j, s). split; [exact Hnm |]. apply filter_In. auto.
  - destruct (after_quiet_passes_trace _ _ _ _ Hquiet) as [_ Hkills].
    rewrite kill_jobs_trace, kills_of_app, kills_of_CallKill. unfold w1.
    rewrite poll_jobs_trace, kills_of_app, kills_of_CallStatus, app_nil_r, Hkills.
    rewrite start_jobs_trace, kills_of_app.
    assert (Hnil : kills_of (map CallRun jobs_) = []).
    { clear. induction jobs_; simpl; auto. }
    rewrite Hnil, app_nil_r. reflexivity.
  - destruct (after_quiet_passes_trace _ _ _ _ Hquiet) as [Hruns _].
    rewrite kill_jobs_trace, runs_of_app, runs_of_CallKill, app_nil_r. unfold w1.
    rewrite poll_jobs_trace, runs_of_app, runs_of_CallStatus, app_nil_r, Hruns.
    rewrite start_jobs_trace, runs_of_app, runs_of_CallRun. reflexivity.
Qed.

Lemma C3_failed_batch_killed_run_ends_witness :
  exists w_end,
    @run nat (fails_late "Q") 4 workflow_PQR world0 =
      (Raised (ValueError_jobs_errored ["Q"]),
       with_metadata workflow_PQR
         (Some (mkMetadata []
                  [[mkNode "P" job_P; mkNode "Q" job_Q]; [mkNode "R" job_R]]
                  [(mkNode "R" job_R, [mkNode "P" job_P; mkNode "Q" job_Q])])),
       w_end) /\
    (forall nm, In nm ["Q"] <->
                exists j s,
                  In (j, s) [(job_P, FINISHED); (job_Q, FAILED)] /\
                  is_errored s = true /\ job_name j = nm) /\
    kills_of (trace w_end) = [] ++ [job_P; job_Q] /\
    runs_of (trace w_end) = [] ++ [job_P; job_Q].
Proof.
  apply (@C3_failed_batch_killed_run_ends nat (fails_late "Q") workflow_PQR
           (with_metadata workflow_PQR
              (Some (mkMetadata []
                       [[mkNode "P" job_P; mkNode "Q" job_Q]; [mkNode "R" job_R]]
                       [(mkNode "R" job_R, [mkNode "P" job_P; mkNode "Q" job_Q])])))
           (mkMetadata []
              [[mkNode "P" job_P; mkNode "Q" job_Q]; [mkNode "R" job_R]]
              [(mkNode "R" job_R, [mkNode "P" job_P; mkNode "Q" job_Q])])
           [] [mkNode "P" job_P; mkNode "Q" job_Q] [[mkNode "R" job_R]]
           0 3 2 world0 world0 world0
           (mkWorld [CallRun job_P; CallRun job_Q;
                     CallStatus job_P RUNNING; CallStatus job_Q RUNNING; CallSleep 60;
                     CallStatus job_P RUNNING; CallStatus job_Q RUNNING; CallSleep 60]
                    120)).
  - reflexivity.
  - reflexivity.
  - left. reflexivity.
  - constructor.
  - reflexivity.
  - reflexivity.
  - reflexivity.
  - lia.
  - lia.
Defined.

(** C4.  For every workflow, not yet run, whose dependencies contain a
    cycle, metadata computation raises the circular-dependency error and so
    does [run]; the workflow is left as it was, with no metadata and so no
    batch sequence, and the run ends in the world it started in: no job was
    started, or asked anything. *)
Theorem C4_cycle_fails_before_any_start {E : Type} {H : JobHandle E}
    (wf : Workflow) (fuel : nat) (w : World E) :
  _metadata wf = None ->
  (exists n, clos_trans Node (depends_on wf) n n) ->
  exists remaining,
    _compute_workflow_metadata wf = (Raised (CircularDependencyError remaining), wf) /\
    run fuel wf w = (Raised (CircularDependencyError remaining), wf, w) /\
    metadata wf = Returned None.
Proof.
  intros Hnone [n Hn].
  assert (Hcyc : has_cycle (build_graph [] (jobs wf))).
  { exists n. eapply clos_trans_incl; [| exact Hn]. intros a b. apply build_graph_edge. }
  destruct (toposort_cyclic _ (build_graph_NoDup (jobs wf)) Hcyc) as [r Hr].
  assert (Hc : _compute_workflow_metadata wf = (Raised (CircularDependencyError r), wf)).
  { rewrite (compute_unset wf Hnone), Hr. reflexivity. }
  exists r. repeat split.
  - exact Hc.
  - unfold run. rewrite Hc. reflexivity.
  - unfold metadata. rewrite Hnone. reflexivity.
Qed.

Lemma workflow_cyclic_has_cycle :
  exists n, clos_trans Node (depends_on workflow_cyclic) n n.
Proof.
  exists (mkNode "A" job_A).
  apply t_trans with (y := mkNode "B" job_B); apply t_step.
  - exists "A", (mkJobEntry job_A [job_B]), job_B. simpl. auto.
  - exists "B", (mkJobEntry job_B [job_A]), job_A. simpl. auto.
Qed.

Lemma C4_cycle_fails_before_any_start_witness :
  exists remaining,
    _compute_workflow_metadata workflow_cyclic =
      (Raised (CircularDependencyError remaining), workflow_cyclic) /\
    @run nat all_finished 9 workflow_cyclic world0 =
      (Raised (CircularDependencyError remaining), workflow_cyclic, world0) /\
    metadata workflow_cyclic = Returned None.
Proof.
  apply (@C4_cycle_fails_before_any_start nat all_finished workflow_cyclic 9 world0).
  - reflexivity.
  - exact workflow_cyclic_has_cycle.
Defined.

(** C5.  Once metadata computation has succeeded on a workflow, every run
    of it ends with that metadata stored; reading the metadata gives the
    computed value; a further [run] fails with the already-exists error
    without touching the jobs; a further computation fails the same way;
    and any attempt to set the metadata fails and changes nothing. *)
Theorem C5_metadata_computed_once {E : Type} {H : JobHandle E}
    (wf wf' : Workflow) (m : Metadata) :
  _compute_workflow_metadata wf = (Returned (Some m), wf') ->
  (forall fuel (w : World E), snd (fst (run fuel wf w)) = wf') /\
  metadata wf' = Returned (Some m) /\
  (forall fuel (w : World E),
     run fuel wf' w = (Raised ValueError_metadata_already_exists, wf', w)) /\
  _compute_workflow_metadata wf' = (Raised ValueError_metadata_already_exists, wf') /\
  (forall value,
     metadata_setter wf' value = (Raised ValueError_metadata_cannot_be_modified, wf')).
Proof.
  intros Hc. destruct (compute_returned _ _ _ Hc) as [Hnone [Hwf' _]].
  assert (Hm : _metadata wf' = Some m) by (subst wf'; reflexivity).
  assert (Hc' : _compute_workflow_metadata wf' =
                (Raised ValueError_metadata_already_exists, wf'))
    by exact (compute_set wf' m Hm).
  repeat split.
  - intros fuel w. rewrite (run_computed _ _ m _ _ Hc). reflexivity.
  - unfold metadata. rewrite Hm. reflexivity.
  - intros fuel w. unfold run. rewrite Hc'. reflexivity.
  - exact Hc'.
  - intros value. unfold metadata_setter. rewrite Hm. reflexivity.
Qed.

Lemma C5_metadata_computed_once_witness :
  let m := mkMetadata []
             [[mkNode "A" job_A]; [mkNode "B" job_B]; [mkNode "C" job_C]]
             [(mkNode "C" job_C, [mkNode "B" job_B]);
              (mkNode "B" job_B, [mkNode "A" job_A])] in
  let wf' := with_metadata workflow_ABC (Some m) in
  (forall fuel (w : World nat), snd (fst (@run nat all_finished fuel workflow_ABC w)) = wf') /\
  metadata wf' = Returned (Some m) /\
  (forall fuel (w : World nat),
     @run nat all_finished fuel wf' w =
       (Raised ValueError_metadata_already_exists, wf', w)) /\
  _compute_workflow_metadata wf' = (Raised ValueError_metadata_already_exists, wf') /\
  (forall value,
     metadata_setter wf' value = (Raised ValueError_metadata_cannot_be_modified, wf')).
Proof.
  apply (@C5_metadata_computed_once nat all_finished workflow_ABC).
  reflexivity.
Defined.

(** C6.  On a workflow whose metadata computation succeeds: with the loop
    flag set, if no job ever reports failed or undetermined (in particular
    if every job always comes to finished), [run] gives no answer within any
    number of iterations; with the loop flag set, after any number of
    completed passes the run is back at the head of its loop and walks the
    batch sequence again; and, the loop flag set or not, a pass in which a
    batch raises ends the run with that error. *)
Theorem C6_loop_repeats_until_failure {E : Type} {H : JobHandle E}
    (wf wf' : Workflow) (m : Metadata) :
  _compute_workflow_metadata wf = (Returned (Some m), wf') ->
  (loop wf = true ->
   (forall (j : Job) (e : E), is_errored (fst (job_status j e)) = false) ->
   forall fuel (w : World E), fst (fst (run fuel wf w)) = OutOfFuel) /\
  (loop wf = true ->
   forall n f (w wn : World E), passes f (topological_order m) n w wn ->
   forall fuel, f <= fuel ->
   run (n + fuel) wf w =
     (fst (run_loop fuel wf' true wn), wf', snd (run_loop fuel wf' true wn))) /\
  (forall n f (w wn we : World E) (e : Exn),
   n = 0 \/ loop wf = true ->
   passes f (topological_order m) n w wn ->
   run_batches f (topological_order m) wn = (Raised e, we) ->
   forall fuel, f < fuel ->
   run (n + fuel) wf w = (Raised e, wf', we)).
Proof.
  intros Hc. destruct (compute_returned _ _ _ Hc) as [Hnone [Hwf' _]].
  assert (Hm : _metadata wf' = Some m) by (subst wf'; reflexivity).
  assert (Hloop : loop wf' = loop wf) by (subst wf'; reflexivity).
  repeat split.
  - intros Hl Hok fuel w. rewrite (run_computed _ _ m _ _ Hc). simpl.
    apply (run_loop_no_answer Hok wf' m Hm). congruence.
  - intros Hl n f w wn Hpasses fuel Hle. rewrite (run_computed _ _ m _ _ Hc).
    rewrite (run_loop_passes wf' m f Hm) with (wn := wn); auto. congruence.
  - intros n f w wn we e Hn Hpasses Hraise fuel Hlt.
    rewrite (run_computed _ _ m _ _ Hc).
    rewrite (run_loop_raises wf' m f n w wn we e Hm) ; auto.
    rewrite Hloop. exact Hn.
Qed.

Lemma C6_loop_repeats_until_failure_witness :
  let m := mkMetadata []
             [[mkNode "A" job_A]; [mkNode "B" job_B]; [mkNode "C" job_C]]
             [(mkNode "C" job_C, [mkNode "B" job_B]);
              (mkNode "B" job_B, [mkNode "A" job_A])] in
  let wf' := with_metadata workflow_loop (Some m) in
  fst (fst (@run nat all_finished 50 workflow_loop world0)) = OutOfFuel /\
  @run nat all_finished (2 + 5) workflow_loop world0 =
    (fst (@run_loop nat all_finished 5 wf' true
            (mkWorld (trace (snd (@run_batches nat all_finished 5 (topological_order m) world0))
                      ++ trace (snd (@run_batches nat all_finished 5 (topological_order m) world0)))
                     0)),
     wf',
     snd (@run_loop nat all_finished 5 wf' true
            (mkWorld (trace (snd (@run_batches nat all_finished 5 (topological_order m) world0))
                      ++ trace (snd (@run_batches nat all_finished 5 (topological_order m) world0)))
                     0))) /\
  exists we,
    @run nat (fails_late "B") (0 + 4) workflow_loop world0 =
      (Raised (ValueError_jobs_errored ["B"]), wf', we) /\
    runs_of (trace we) = [job_A; job_B].
Proof.
  intros m wf'.
  assert (Hc : _compute_workflow_metadata workflow_loop = (Returned (Some m), wf'))
    by reflexivity.
  split; [| split].
  - apply (proj1 (@C6_loop_repeats_until_failure nat all_finished
                    workflow_loop wf' m Hc)).
    + reflexivity.
    + intros j e. reflexivity.
  - apply (proj1 (proj2 (@C6_loop_repeats_until_failure nat all_finished
                           workflow_loop wf' m Hc))) with (f := 5).
    + reflexivity.
    + eapply passes_S; [reflexivity |]. eapply passes_S; [reflexivity |].
      apply passes_O.
    + lia.
  - eexists. split.
    + apply (proj2 (proj2 (@C6_loop_repeats_until_failure nat (fails_late "B")
                             workflow_loop wf' m Hc))) with (f := 3) (wn := world0).
      * left. reflexivity.
      * apply passes_O.
      * reflexivity.
      * lia.
    + reflexivity.
Defined.

(** C7 (the code departs from the claim).  The claim: two nodes are equal
    if and only if their names are equal, so that a job passed as a
    dependency and a job registered under the same name are one node.  The
    code: a node is the pair of a name and a job object and is compared as a
    pair, and [node_dict], through which a node would be found again by its
    name, is never written to.  With A registered (depending on C) and B
    depending on another job object named A, the graph has two nodes named
    A, in different batches, and B shares a batch with the registered A. *)
Theorem C7_same_name_two_nodes :
  let a := mkNode "A" job_A in
  let a' := mkNode "A" job_A' in
  name a = name a' /\ a <> a' /\ Node_eqb a a' = false /\
  fst (_compute_workflow_metadata workflow_AA) =
    Returned (Some (mkMetadata []
                      [[mkNode "C" job_C; a']; [a; mkNode "B" job_B]]
                      [(a, [mkNode "C" job_C]); (mkNode "B" job_B, [a'])])).
Proof.
  cbv zeta. repeat split.
  intros Heq. discriminate Heq.
Qed.

(** C8 as stated fails: reading [metadata] on a workflow that has not run
    raises nothing; it returns [None]. *)
Lemma C8_read_before_run_does_not_fail :
  metadata (Workflow_init "w" false) = Returned None /\
  ~ (exists e, metadata (Workflow_init "w" false) = Raised e).
Proof.
  split; [reflexivity |]. intros [e He]. discriminate He.
Qed.

(** C8, amended.  Reading the [metadata] property of a workflow whose
    metadata has not been computed returns [None], and raises nothing. *)
Theorem C8_unset_metadata_reads_None (wf : Workflow) :
  _metadata wf = None -> metadata wf = Returned None.
Proof. intros Hnone. unfold metadata. rewrite Hnone. reflexivity. Qed.

Lemma C8_unset_metadata_reads_None_witness : metadata workflow_ABC = Returned None.
Proof. apply (C8_unset_metadata_reads_None workflow_ABC). reflexivity. Defined.

(** C9.  Registering a job whose name is already a key of the registry
    raises the job-exists error, whatever jobs it is given as dependencies,
    and the workflow that comes out is the workflow that went in: the entry
    registered first, job and dependency list, is still what the name maps
    to. *)
Theorem C9_duplicate_name_rejected (wf : Workflow) (j : Job)
    (dependencies : option (list Job)) (first : JobEntry) :
  In (job_name j, first) (jobs wf) ->
  add_job wf (PJob j) (option_map (map PJob) dependencies) =
    (Raised (ValueError_job_exists (job_name j)), wf) /\
  In (job_name j, first)
     (jobs (snd (add_job wf (PJob j) (option_map (map PJob) dependencies)))).
Proof.
  intros Hin.
  assert (Hadd : add_job wf (PJob j) (option_map (map PJob) dependencies) =
                 (Raised (ValueError_job_exists (job_name j)), wf)).
  { unfold add_job.
    assert (Hmem : dict_mem String.eqb (jobs wf) (job_name j) = true).
    { apply dict_mem_In. exists first. exact Hin. }
    destruct dependencies as [deps |]; simpl.
    - rewrite forallb_isinstance_PJob, as_jobs_PJob, Hmem. reflexivity.
    - rewrite Hmem. reflexivity. }
  split; [exact Hadd |]. rewrite Hadd. exact Hin.
Qed.

Lemma C9_duplicate_name_rejected_witness :
  add_job workflow_AA (PJob job_A') (option_map (map PJob) (Some [job_B])) =
    (Raised (ValueError_job_exists "A"), workflow_AA) /\
  In ("A", mkJobEntry job_A [job_C])
     (jobs (snd (add_job workflow_AA (PJob job_A')
                         (option_map (map PJob) (Some [job_B]))))).
Proof.
  apply (C9_duplicate_name_rejected workflow_AA job_A' (Some [job_B])
           (mkJobEntry job_A [job_C])).
  simpl. left. reflexivity.
Defined.

(** C10.  Whenever metadata computation raises, the workflow is left as it
    was.  If its metadata was unset, it is still unset and reads as [None];
    what was raised is not the already-exists error; and a later [run] of
    the same workflow fails with the same error again, not on the
    already-computed guard, and starts no job. *)
Theorem C10_failed_computation_leaves_workflow {E : Type} {H : JobHandle E}
    (wf wf' : Workflow) (e : Exn) :
  _compute_workflow_metadata wf = (Raised e, wf') ->
  wf' = wf /\
  (_metadata wf = None ->
   _metadata wf' = None /\
   metadata wf' = Returned None /\
   e <> ValueError_metadata_already_exists /\
   forall fuel (w : World E), run fuel wf' w = (Raised e, wf', w)).
Proof.
  intros Hc. pose proof (compute_raised_unchanged _ _ _ Hc) as ->.
  split; [reflexivity |]. intros Hnone. repeat split.
  - exact Hnone.
  - unfold metadata. rewrite Hnone. reflexivity.
  - rewrite (compute_unset wf Hnone) in Hc.
    destruct (toposort (build_graph [] (jobs wf))); cbv zeta in Hc;
      try discriminate. injection Hc as <-. discriminate.
  - intros fuel w. unfold run. rewrite Hc. reflexivity.
Qed.

Lemma C10_failed_computation_leaves_workflow_witness :
  let e := CircularDependencyError
             [(mkNode "A" job_A, [mkNode "B" job_B]);
              (mkNode "B" job_B, [mkNode "A" job_A])] in
  _compute_workflow_metadata workflow_cyclic = (Raised e, workflow_cyclic) /\
  _metadata workflow_cyclic = None /\
  metadata workflow_cyclic = Returned None /\
  e <> ValueError_metadata_already_exists /\
  forall fuel (w : World nat),
    @run nat all_finished fuel workflow_cyclic w = (Raised e, workflow_cyclic, w).
Proof.
  split; [reflexivity |].
  exact (proj2 (@C10_failed_computation_leaves_workflow nat all_finished
                  workflow_cyclic workflow_cyclic _ eq_refl) eq_refl).
Defined.

(** * Further properties of the code *)

(** ** The registry *)

Lemma dict_mem_keys {V : Type} (d : list (string * V)) (k : string) :
  dict_mem String.eqb d k = true <-> In k (map fst d).
Proof.
  rewrite dict_mem_In, in_map_iff. split.
  - intros [v Hv]. exists (k, v). auto.
  - intros [[k' v] [Hk Hv]]. simpl in Hk. subst k'. eauto.
Qed.

Lemma dict_set_fresh {V : Type} (d : list (string * V)) (k : string) (v : V) :
  dict_mem String.eqb d k = false -> dict_set String.eqb d k v = d ++ [(k, v)].
Proof.
  induction d as [| [k' v'] d IH]; simpl; intros Hmem; [reflexivity |].
  apply orb_false_iff in Hmem. destruct Hmem as [Hk Hmem].
  rewrite Hk, (IH Hmem). reflexivity.
Qed.

Lemma dict_get_last {V : Type} (d : list (string * V)) (k : string) (v default : V) :
  dict_mem String.eqb d k = false ->
  dict_get String.eqb (d ++ [(k, v)]) k default = v.
Proof.
  induction d as [| [k' v'] d IH]; simpl; intros Hmem.
  - rewrite String.eqb_refl. reflexivity.
  - apply orb_false_iff in Hmem. destruct Hmem as [Hk Hmem].
    rewrite Hk. apply IH. exact Hmem.
Qed.

Lemma as_jobs_forallb (l : list PyObj) :
  forallb isinstance_Job l = true -> exists js, as_jobs l = Some js.
Proof.
  induction l as [| [j | tag] l IH]; simpl; intros Hall.
  - eauto.
  - destruct (IH Hall) as [js Hjs]. rewrite Hjs. eauto.
  - discriminate.
Qed.

(** What [add_job] comes to: it raises and gives the workflow back, or it
    returns and the registry has one more entry, at the end, under a name
    that was not a key. *)
Lemma add_job_cases (wf : Workflow) (j : PyObj) (dependencies : option (list PyObj)) :
  (exists e, add_job wf j dependencies = (Raised e, wf)) \/
  (exists jb deps,
     j = PJob jb /\
     dict_mem String.eqb (jobs wf) (job_name jb) = false /\
     add_job wf j dependencies =
       (Returned tt,
        {| workflow_name := workflow_name wf; _metadata := _metadata wf;
           _loop := _loop wf;
           jobs := jobs wf ++ [(job_name jb, mkJobEntry jb deps)] |})).
Proof.
  unfold add_job. destruct j as [jb | tag]; [| left; eauto].
  destruct (forallb isinstance_Job
              match dependencies with Some l => l | None => [] end) eqn:Hall;
    simpl; [| left; eauto].
  destruct (as_jobs_forallb _ Hall) as [deps Hdeps]. rewrite Hdeps.
  destruct (dict_mem String.eqb (jobs wf) (job_name jb)) eqn:Hmem; [left; eauto |].
  right. exists jb, deps. rewrite (dict_set_fresh _ _ _ Hmem). auto.
Qed.

(** X1.  Registering a job under a name that is not yet a key, with jobs
    (or nothing) as dependencies, returns; the registry is the old one with
    one entry more, at the end, holding the job and its dependency list; the
    name now maps to that entry; metadata, loop flag and workflow name are
    as before. *)
Theorem add_job_fresh_name_appends (wf : Workflow) (j : Job)
    (dependencies : option (list Job)) :
  (forall entry, ~ In (job_name j, entry) (jobs wf)) ->
  let deps := match dependencies with Some l => l | None => [] end in
  let wf' := snd (add_job wf (PJob j) (option_map (map PJob) dependencies)) in
  fst (add_job wf (PJob j) (option_map (map PJob) dependencies)) = Returned tt /\
  jobs wf' = jobs wf ++ [(job_name j, mkJobEntry j deps)] /\
  (forall default,
     dict_get String.eqb (jobs wf') (job_name j) default = mkJobEntry j deps) /\
  _metadata wf' = _metadata wf /\ loop wf' = loop wf /\
  workflow_name wf' = workflow_name wf.
Proof.
  intros Hfresh.
  assert (Hmem : dict_mem String.eqb (jobs wf) (job_name j) = false).
  { apply not_true_is_false. intros Hmem. apply dict_mem_In in Hmem.
    destruct Hmem as [entry Hin]. exact (Hfresh entry Hin). }
  assert (Hadd : add_job wf (PJob j) (option_map (map PJob) dependencies) =
                 (Returned tt,
                  {| workflow_name := workflow_name wf; _metadata := _metadata wf;
                     _loop := _loop wf;
                     jobs := jobs wf ++
                             [(job_name j,
                               mkJobEntry j match dependencies with
                                            | Some l => l | None => [] end)] |})).
  { unfold add_job. destruct dependencies as [deps |]; simpl.
    - rewrite forallb_isinstance_PJob, as_jobs_PJob, Hmem. simpl.
      rewrite (dict_set_fresh _ _ _ Hmem). reflexivity.
    - rewrite Hmem, (dict_set_fresh _ _ _ Hmem). reflexivity. }
  cbv zeta. rewrite Hadd. simpl. repeat split.
  intros default. apply dict_get_last. exact Hmem.
Qed.

Lemma add_job_fresh_name_appends_witness :
  let wf' := snd (add_job workflow_XY (PJob job_A) (option_map (map PJob) (Some [job_X]))) in
  fst (add_job workflow_XY (PJob job_A) (option_map (map PJob) (Some [job_X]))) =
    Returned tt /\
  jobs wf' = jobs workflow_XY ++ [("A", mkJobEntry job_A [job_X])] /\
  (forall default,
     dict_get String.eqb (jobs wf') "A" default = mkJobEntry job_A [job_X]) /\
  _metadata wf' = _metadata workflow_XY /\ loop wf' = loop workflow_XY /\
  workflow_name wf' = workflow_name workflow_XY.
Proof.
  apply (add_job_fresh_name_appends workflow_XY job_A (Some [job_X])).
  intros entry [Hin | [Hin | []]]; discriminate Hin.
Defined.

(** X2.  A dependency that is not a job makes [add_job] raise the type
    error for dependencies and leave the workflow as it was; the check comes
    before the check of the name, so this is also what happens when the
    name of the job is already registered. *)
Theorem add_job_bad_dependency (wf : Workflow) (j : Job)
    (dependencies : list PyObj) (tag : nat) :
  In (PNotJob tag) dependencies ->
  add_job wf (PJob j) (Some dependencies) = (Raised TypeError_dependencies, wf).
Proof.
  intros Hin. unfold add_job.
  assert (Hall : forallb isinstance_Job dependencies = false).
  { apply not_true_is_false. intros Hall. rewrite forallb_forall in Hall.
    specialize (Hall _ Hin). discriminate Hall. }
  rewrite Hall. reflexivity.
Qed.

Lemma add_job_bad_dependency_witness :
  add_job workflow_AA (PJob job_A') (Some [PJob job_C; PNotJob 0]) =
    (Raised TypeError_dependencies, workflow_AA).
Proof.
  apply (add_job_bad_dependency workflow_AA job_A' [PJob job_C; PNotJob 0] 0).
  right. left. reflexivity.
Defined.

(** X3.  Whatever it is given and whatever comes of it, [add_job] keeps
    every entry of the registry as it is (it never replaces or removes a
    registration), leaves metadata and loop flag alone, and when it raises
    gives back the workflow it was given. *)
Theorem add_job_keeps_registrations (wf : Workflow) (j : PyObj)
    (dependencies : option (list PyObj)) :
  (forall key entry, In (key, entry) (jobs wf) ->
                     In (key, entry) (jobs (snd (add_job wf j dependencies)))) /\
  _metadata (snd (add_job wf j dependencies)) = _metadata wf /\
  loop (snd (add_job wf j dependencies)) = loop wf /\
  (forall e, fst (add_job wf j dependencies) = Raised e ->
             snd (add_job wf j dependencies) = wf).
Proof.
  destruct (add_job_cases wf j dependencies) as [[e He] | [jb [deps [_ [_ Hadd]]]]].
  - rewrite He. simpl. auto.
  - rewrite Hadd. simpl. repeat split.
    + intros key entry Hin. apply in_or_app. left. exact Hin.
    + intros e He. discriminate He.
Qed.

(** X4.  On every workflow that has not run (a new one, after any calls of
    [add_job] and of the setter of [loop]) the names in the registry are
    distinct, every name is the name of the job it maps to, and no metadata
    is stored. *)
Theorem registered_names_distinct (wf : Workflow) :
  registered wf ->
  NoDup (map fst (jobs wf)) /\
  (forall key entry, In (key, entry) (jobs wf) -> key = job_name (entry_job entry)) /\
  _metadata wf = None.
Proof.
  intros Hreg. induction Hreg as [nm lp | wf j dependencies _ IH | wf value _ IH].
  - simpl. repeat split; [constructor | intros key entry []].
  - destruct IH as [Hnd [Hkey Hnone]].
    destruct (add_job_cases wf j dependencies) as [[e He] | [jb [deps [_ [Hmem Hadd]]]]].
    + rewrite He. simpl. auto.
    + rewrite Hadd. simpl. repeat split.
      * rewrite map_app. simpl.
        assert (Hno : ~ In (job_name jb) (map fst (jobs wf))).
        { intros Hin. apply dict_mem_keys in Hin. congruence. }
        clear - Hnd Hno. induction (map fst (jobs wf)) as [| x l IH]; simpl.
        -- constructor; [intros [] | constructor].
        -- inversion Hnd; subst. constructor.
           ++ rewrite in_app_iff. simpl. intros [Hx | [Hx | []]]; [tauto |].
              apply Hno. left. symmetry. exact Hx.
           ++ apply IH; [assumption |]. intros Hin. apply Hno. right. exact Hin.
      * intros key entry Hin. apply in_app_or in Hin.
        destruct Hin as [Hin | [[= <- <-] | []]]; [apply Hkey; exact Hin | reflexivity].
      * exact Hnone.
  - exact IH.
Qed.

Lemma workflow_AA_registered : registered workflow_AA.
Proof.
  unfold workflow_AA, register.
  apply registered_add_job. apply registered_add_job. apply registered_init.
Qed.

Lemma registered_names_distinct_witness :
  NoDup (map fst (jobs workflow_AA)) /\
  (forall key entry, In (key, entry) (jobs workflow_AA) ->
                     key = job_name (entry_job entry)) /\
  _metadata workflow_AA = None.
Proof.
  apply (registered_names_distinct workflow_AA). exact workflow_AA_registered.
Defined.

(** ** The metadata property *)

(** X5.  On a workflow without metadata, assigning a metadata value
    succeeds, the property then reads as that value, and every further
    assignment raises and changes nothing.  Assigning [None] also succeeds
    but stores nothing: the property still reads [None] and a value can
    still be assigned afterwards. *)
Theorem metadata_setter_write_once (wf : Workflow) (value : Metadata) :
  _metadata wf = None ->
  (fst (metadata_setter wf (Some value)) = Returned tt /\
   metadata (snd (metadata_setter wf (Some value))) = Returned (Some value) /\
   forall v,
     metadata_setter (snd (metadata_setter wf (Some value))) v =
       (Raised ValueError_metadata_cannot_be_modified,
        snd (metadata_setter wf (Some value)))) /\
  (fst (metadata_setter wf None) = Returned tt /\
   metadata (snd (metadata_setter wf None)) = Returned None /\
   metadata (snd (metadata_setter (snd (metadata_setter wf None)) (Some value))) =
     Returned (Some value)).
Proof.
  intros Hnone. unfold metadata_setter. rewrite Hnone. simpl. repeat split.
Qed.

Lemma metadata_setter_write_once_witness :
  let value := mkMetadata [] [] [] in
  (fst (metadata_setter workflow_XY (Some value)) = Returned tt /\
   metadata (snd (metadata_setter workflow_XY (Some value))) = Returned (Some value) /\
   forall v,
     metadata_setter (snd (metadata_setter workflow_XY (Some value))) v =
       (Raised ValueError_metadata_cannot_be_modified,
        snd (metadata_setter workflow_XY (Some value)))) /\
  (fst (metadata_setter workflow_XY None) = Returned tt /\
   metadata (snd (metadata_setter workflow_XY None)) = Returned None /\
   metadata (snd (metadata_setter (snd (metadata_setter workflow_XY None))
                                  (Some value))) =
     Returned (Some value)).
Proof.
  apply (metadata_setter_write_once workflow_XY (mkMetadata [] [] [])).
  reflexivity.
Defined.

(** ** The graph that metadata computation builds *)

Lemma set_add_NoDup (n : Node) (s : list Node) : NoDup s -> NoDup (set_add n s).
Proof.
  intros Hnd. unfold set_add. destruct (node_in n s) eqn:Hn; [exact Hnd |].
  apply node_in_not_In in Hn. clear - Hnd Hn.
  induction s as [| x s IH]; simpl.
  - constructor; [intros [] | constructor].
  - inversion Hnd; subst. constructor.
    + rewrite in_app_iff. simpl. intros [Hx | [Hx | []]]; [tauto |].
      apply Hn. left. symmetry. exact Hx.
    + apply IH; [assumption |]. intros Hin. apply Hn. right. exact Hin.
Qed.

Lemma set_add_not_nil (n : Node) (s : list Node) : set_add n s <> [].
Proof.
  unfold set_add. destruct (node_in n s) eqn:Hn.
  - apply node_in_In in Hn. destruct s; [destruct Hn | discriminate].
  - destruct s; discriminate.
Qed.

Lemma graph_add_entries (g : Graph) (n d : Node) :
  entries_are_sets g -> entries_are_sets (graph_add g n d).
Proof.
  unfold entries_are_sets. induction g as [| [k s] g IH]; simpl; intros Hg a deps.
  - intros [[= <- <-] | []]. split.
    + apply set_add_NoDup. constructor.
    + apply set_add_not_nil.
  - destruct (Node_eqb k n).
    + intros [[= <- <-] | Hin].
      * split; [apply set_add_NoDup; apply (Hg k s); left; reflexivity |
                apply set_add_not_nil].
      * apply (Hg a deps). right. exact Hin.
    + intros [[= <- <-] | Hin].
      * apply (Hg k s). left. reflexivity.
      * refine (IH _ a deps Hin). intros a' deps' Hin'.
        apply (Hg a' deps'). right. exact Hin'.
Qed.

Lemma add_dependencies_entries (node : Node) (deps : list Job) :
  forall g, entries_are_sets g -> entries_are_sets (add_dependencies [] node deps g).
Proof.
  unfold add_dependencies. induction deps as [| dep deps IH]; simpl; intros g Hg.
  - exact Hg.
  - apply IH. apply graph_add_entries. exact Hg.
Qed.

Lemma build_graph_entries (registry : list (string * JobEntry)) :
  entries_are_sets (build_graph [] registry).
Proof.
  unfold build_graph.
  assert (Hgen : forall g, entries_are_sets g ->
            entries_are_sets (fold_left
              (fun g item =>
                 add_dependencies [] (dict_get String.eqb [] (fst item)
                                        (mkNode (fst item) (entry_job (snd item))))
                                  (entry_dependencies (snd item)) g)
              registry g)).
  { induction registry as [| item registry IH]; simpl; intros g Hg; [exact Hg |].
    apply IH. apply add_dependencies_entries. exact Hg. }
  apply Hgen. intros a deps [].
Qed.

(** X6.  In the metadata that a successful computation stores, the graph has
    an edge from one node to another exactly when the first is the node of a
    registered job and the second the node of a job in its dependency list;
    its keys are distinct and are exactly the nodes of the registered jobs
    that declare at least one dependency; each key maps to a set without
    repetition; the node list is empty; and the registry is as before. *)
Theorem computed_graph_is_declared_dependencies (wf wf' : Workflow) (m : Metadata) :
  _compute_workflow_metadata wf = (Returned (Some m), wf') ->
  (forall a b, edge (graph m) a b <-> depends_on wf a b) /\
  NoDup (map fst (graph m)) /\
  (forall a, In a (map fst (graph m)) <-> exists b, depends_on wf a b) /\
  (forall a deps, In (a, deps) (graph m) -> NoDup deps) /\
  nodes m = [] /\
  jobs wf' = jobs wf.
Proof.
  intros Hc. destruct (compute_returned _ _ _ Hc) as [Hnone [Hwf' _]].
  assert (Hg : graph m = build_graph [] (jobs wf)).
  { rewrite (compute_unset wf Hnone) in Hc.
    destruct (toposort (build_graph [] (jobs wf))); cbv zeta in Hc;
      try discriminate. injection Hc as <- _. reflexivity. }
  rewrite Hg. repeat split.
  - apply build_graph_edge.
  - apply build_graph_edge.
  - apply build_graph_NoDup.
  - intros Hin. apply in_map_iff in Hin. destruct Hin as [[a0 deps] [Ha Hin]].
    simpl in Ha. subst a0.
    destruct (build_graph_entries (jobs wf) a deps Hin) as [_ Hne].
    destruct deps as [| b deps]; [congruence |]. exists b.
    apply build_graph_edge. exists (b :: deps). split; [exact Hin | left; reflexivity].
  - intros [b Hdep]. apply build_graph_edge in Hdep.
    destruct Hdep as [deps [Hin _]]. apply in_map_iff. exists (a, deps). auto.
  - intros a deps Hin. apply (build_graph_entries (jobs wf) a deps Hin).
  - exact (computed_nodes_empty _ _ _ Hnone Hc).
  - subst wf'. reflexivity.
Qed.

Lemma computed_graph_is_declared_dependencies_witness :
  let g := [(mkNode "A" job_A, [mkNode "C" job_C]);
            (mkNode "B" job_B, [mkNode "A" job_A'])] in
  (forall a b, edge g a b <-> depends_on workflow_AA a b) /\
  NoDup (map fst g) /\
  (forall a, In a (map fst g) <-> exists b, depends_on workflow_AA a b) /\
  (forall a deps, In (a, deps) g -> NoDup deps) /\
  @nil Node = [] /\
  jobs workflow_AA = jobs workflow_AA.
Proof.
  apply (computed_graph_is_declared_dependencies workflow_AA
           (snd (_compute_workflow_metadata workflow_AA))
           (mkMetadata []
              [[mkNode "C" job_C; mkNode "A" job_A'];
               [mkNode "A" job_A; mkNode "B" job_B]]
              [(mkNode "A" job_A, [mkNode "C" job_C]);
               (mkNode "B" job_B, [mkNode "A" job_A'])])).
  reflexivity.
Defined.

(** ** Polling *)

Lemma sleeps_of_app (a b : list Event) : sleeps_of (a ++ b) = sleeps_of a ++ sleeps_of b.
Proof. apply flat_map_app. Qed.

Lemma sleeps_of_CallStatus (obs : list (Job * JobStatus)) :
  sleeps_of (map (fun p => CallStatus (fst p) (snd p)) obs) = [].
Proof. induction obs as [| p obs IH]; simpl; auto. Qed.

Lemma sleeps_of_CallRun (js : list Job) : sleeps_of (map CallRun js) = [].
Proof. induction js as [| j js IH]; simpl; auto. Qed.

Lemma kills_of_CallRun (js : list Job) : kills_of (map CallRun js) = [].
Proof. induction js as [| j js IH]; simpl; auto. Qed.

Section Polling.
Context {E : Type} `{JobHandle E}.

Lemma statuses_of_pass_jobs (jobs : list Job) :
  forall w : World E, map fst (statuses_of_pass jobs w) = jobs.
Proof.
  induction jobs as [| j jobs IH]; simpl; intros w; [reflexivity |].
  destruct (call_status j w) as [s w1]. simpl. rewrite IH. reflexivity.
Qed.

(** X7.  One polling pass, started with the locals [_execute_and_wait]
    gives it, asks every job of the batch for its status once, in the order
    of the batch, and asks the environment nothing else.  It ends with
    all-completed set exactly when every status was FINISHED, with
    any-errored set exactly when some status was FAILED or UNDETERMINED, and
    with the names of the jobs that reported such a status, in the order of
    the batch. *)
Theorem polling_pass_observes (jobs : list Job) (w : World E) :
  all_completed (fst (poll_jobs jobs (mkPoll true false []) w)) =
    forallb (fun p => is_finished (snd p)) (statuses_of_pass jobs w) /\
  any_errored (fst (poll_jobs jobs (mkPoll true false []) w)) =
    existsb (fun p => is_errored (snd p)) (statuses_of_pass jobs w) /\
  errored_jobs (fst (poll_jobs jobs (mkPoll true false []) w)) =
    map (fun p => job_name (fst p))
        (filter (fun p => is_errored (snd p)) (statuses_of_pass jobs w)) /\
  trace (snd (poll_jobs jobs (mkPoll true false []) w)) =
    trace w ++ map (fun p => CallStatus (fst p) (snd p)) (statuses_of_pass jobs w) /\
  map fst (statuses_of_pass jobs w) = jobs.
Proof.
  destruct (poll_jobs_spec jobs (mkPoll true false []) w) as [H1 [H2 [H3 H4]]].
  simpl in *. repeat split; try assumption.
  apply statuses_of_pass_jobs.
Qed.

Lemma wait_loop_finished (fuel : nat) (jobs : list Job) (w : World E) :
  forallb (fun p => is_finished (snd p)) (statuses_of_pass jobs w) = true ->
  wait_loop (S fuel) jobs w =
  (Returned true, snd (poll_jobs jobs (mkPoll true false []) w)).
Proof.
  intros Hall. simpl.
  destruct (poll_jobs_spec jobs (mkPoll true false []) w) as [H1 _].
  destruct (poll_jobs jobs (mkPoll true false []) w) as [st w1].
  simpl in *. rewrite H1, Hall. reflexivity.
Qed.

Lemma after_quiet_passes_sleeps (k : nat) (jobs : list Job) :
  forall w wk : World E,
  after_quiet_passes k jobs w = Some wk ->
  sleeps_of (trace wk) = sleeps_of (trace w) ++ repeat 60 k.
Proof.
  induction k as [| k IH]; simpl; intros w wk.
  - intros [= ->]. rewrite app_nil_r. reflexivity.
  - pose proof (poll_jobs_trace jobs (mkPoll true false []) w) as Htr.
    destruct (poll_jobs jobs (mkPoll true false []) w) as [st w1]. simpl in Htr.
    destruct (all_completed st || any_errored st); [discriminate |].
    intros Hk. rewrite (IH _ _ Hk). simpl.
    rewrite Htr, !sleeps_of_app, sleeps_of_CallStatus. simpl.
    rewrite app_nil_r, <- app_assoc. reflexivity.
Qed.

(** What an answer of the polling loop tells: the passes before the last
    were quiet, and the last saw every job finished, or some job errored. *)
Lemma wait_loop_answers (fuel : nat) (jobs : list Job) :
  forall (w w' : World E) (o : Outcome bool),
  wait_loop fuel jobs w = (o, w') -> o <> OutOfFuel ->
  exists k wk,
    k < fuel /\ after_quiet_passes k jobs w = Some wk /\
    ((o = Returned true /\
      forallb (fun p => is_finished (snd p)) (statuses_of_pass jobs wk) = true /\
      w' = snd (poll_jobs jobs (mkPoll true false []) wk)) \/
     (o = Raised (ValueError_jobs_errored (errored_names jobs wk)) /\
      existsb (fun p => is_errored (snd p)) (statuses_of_pass jobs wk) = true /\
      w' = _kill_jobs jobs (snd (poll_jobs jobs (mkPoll true false []) wk)))).
Proof.
  induction fuel as [| fuel IH]; simpl; intros w w' o Hrun Ho.
  - injection Hrun as <- _. congruence.
  - destruct (poll_jobs_spec jobs (mkPoll true false []) w) as [H1 [H2 [H3 _]]].
    destruct (poll_jobs jobs (mkPoll true false []) w) as [st w1] eqn:Hpoll.
    simpl in H1, H2, H3.
    destruct (all_completed st) eqn:Hall.
    + injection Hrun as <- <-. exists 0, w. repeat split; [lia |].
      left. rewrite Hpoll. auto.
    + destruct (any_errored st) eqn:Herr.
      * injection Hrun as <- <-. exists 0, w. repeat split; [lia |].
        right. rewrite Hpoll, H3. auto.
      * destruct (IH _ _ _ Hrun Ho) as [k [wk [Hk [Hquiet Hlast]]]].
        exists (S k), wk. split; [lia |]. split; [| exact Hlast].
        simpl. rewrite Hpoll, Hall, Herr. exact Hquiet.
Qed.

(** X8.  If, after the jobs of a batch were started, [k] polling passes
    go by in which some job is not finished and none has errored, and in the
    next pass every job reports FINISHED, then [_execute_and_wait] returns
    True.  Up to then it has started the jobs of the batch, each once and in
    order, has slept [k] times, 60 seconds each, and has killed nothing. *)
Theorem execute_and_wait_returns_when_all_finished
    (jobs : list Job) (k : nat) (w wk : World E) :
  after_quiet_passes k jobs (start_jobs jobs w) = Some wk ->
  forallb (fun p => is_finished (snd p)) (statuses_of_pass jobs wk) = true ->
  forall fuel, k < fuel ->
  exists w',
    _execute_and_wait fuel jobs w = (Returned true, w') /\
    runs_of (trace w') = runs_of (trace w) ++ jobs /\
    kills_of (trace w') = kills_of (trace w) /\
    sleeps_of (trace w') = sleeps_of (trace w) ++ repeat 60 k.
Proof.
  intros Hquiet Hall fuel Hk.
  exists (snd (poll_jobs jobs (mkPoll true false []) wk)). split.
  - unfold _execute_and_wait. replace fuel with (k + S (fuel - S k)) by lia.
    rewrite (wait_loop_quiet k jobs _ wk _ Hquiet).
    apply wait_loop_finished. exact Hall.
  - destruct (after_quiet_passes_trace _ _ _ _ Hquiet) as [Hruns Hkills].
    pose proof (after_quiet_passes_sleeps _ _ _ _ Hquiet) as Hsleeps.
    rewrite poll_jobs_trace.
    rewrite runs_of_app, kills_of_app, sleeps_of_app.
    rewrite runs_of_CallStatus, kills_of_CallStatus, sleeps_of_CallStatus.
    rewrite !app_nil_r, Hruns, Hkills, Hsleeps, start_jobs_trace.
    rewrite runs_of_app, kills_of_app, sleeps_of_app.
    rewrite runs_of_CallRun, kills_of_CallRun, sleeps_of_CallRun.
    rewrite !app_nil_r. auto.
Qed.

(** X9.  Whenever [_execute_and_wait] answers, the jobs of the batch were
    started, each once and in order, some number of passes went by in which
    some job was not finished and none had errored, and then either it
    returns True, after a pass in which every job reported FINISHED, having
    killed nothing; or it raises the error that carries the names of the
    jobs that reported FAILED or UNDETERMINED in the last pass, of which
    there is at least one, having sent a kill to every job of the batch, in
    order.  It returns nothing but True. *)
Theorem execute_and_wait_answer (fuel : nat) (jobs : list Job)
    (w w' : World E) (o : Outcome bool) :
  _execute_and_wait fuel jobs w = (o, w') -> o <> OutOfFuel ->
  runs_of (trace w') = runs_of (trace w) ++ jobs /\
  exists k wk,
    k < fuel /\ after_quiet_passes k jobs (start_jobs jobs w) = Some wk /\
    ((o = Returned true /\
      forallb (fun p => is_finished (snd p)) (statuses_of_pass jobs wk) = true /\
      kills_of (trace w') = kills_of (trace w)) \/
     (o = Raised (ValueError_jobs_errored (errored_names jobs wk)) /\
      existsb (fun p => is_errored (snd p)) (statuses_of_pass jobs wk) = true /\
      errored_names jobs wk <> [] /\
      kills_of (trace w') = kills_of (trace w) ++ jobs)).
Proof.
  unfold _execute_and_wait. intros Hrun Ho.
  destruct (wait_loop_answers _ _ _ _ _ Hrun Ho) as [k [wk [Hk [Hquiet Hlast]]]].
  destruct (after_quiet_passes_trace _ _ _ _ Hquiet) as [Hruns Hkills].
  rewrite start_jobs_trace, runs_of_app, runs_of_CallRun in Hruns.
  rewrite start_jobs_trace, kills_of_app, kills_of_CallRun, app_nil_r in Hkills.
  split.
  - destruct Hlast as [[_ [_ ->]] | [_ [_ ->]]].
    + rewrite poll_jobs_trace, runs_of_app, runs_of_CallStatus, app_nil_r. exact Hruns.
    + rewrite kill_jobs_trace, runs_of_app, runs_of_CallKill, app_nil_r.
      rewrite poll_jobs_trace, runs_of_app, runs_of_CallStatus, app_nil_r. exact Hruns.
  - exists k, wk. split; [exact Hk |]. split; [exact Hquiet |].
    destruct Hlast as [[-> [Hall ->]] | [-> [Herr ->]]]; [left | right].
    + repeat split; [exact Hall |].
      rewrite poll_jobs_trace, kills_of_app, kills_of_CallStatus, app_nil_r. exact Hkills.
    + repeat split; [exact Herr | |].
      * unfold errored_names. apply existsb_exists in Herr.
        destruct Herr as [p [Hp Hperr]].
        assert (Hin : In p (filter (fun p => is_errored (snd p)) (statuses_of_pass jobs wk)))
          by (apply filter_In; auto).
        destruct (filter (fun p => is_errored (snd p)) (statuses_of_pass jobs wk));
          [destruct Hin | discriminate].
      * rewrite kill_jobs_trace, kills_of_app, kills_of_CallKill.
        rewrite poll_jobs_trace, kills_of_app, kills_of_CallStatus, app_nil_r, Hkills.
        reflexivity.
Qed.

End Polling.

Lemma execute_and_wait_returns_when_all_finished_witness :
  exists w',
    @_execute_and_wait nat (fails_late "Q") 5 [job_P; job_R] world0 =
      (Returned true, w') /\
    runs_of (trace w') = [] ++ [job_P; job_R] /\
    kills_of (trace w') = [] /\
    sleeps_of (trace w') = [] ++ repeat 60 2.
Proof.
  apply (@execute_and_wait_returns_when_all_finished nat (fails_late "Q")
           [job_P; job_R] 2 world0
           (mkWorld [CallRun job_P; CallRun job_R;
                     CallStatus job_P RUNNING; CallStatus job_R RUNNING; CallSleep 60;
                     CallStatus job_P RUNNING; CallStatus job_R RUNNING; CallSleep 60]
                    120)).
  - reflexivity.
  - reflexivity.
  - lia.
Defined.

Lemma execute_and_wait_answer_witness :
  runs_of [CallRun job_P; CallRun job_Q;
           CallStatus job_P FINISHED; CallStatus job_Q FAILED;
           CallKill job_P; CallKill job_Q] = [] ++ [job_P; job_Q] /\
  exists k wk,
    k < 1 /\
    @after_quiet_passes nat (fails_late "Q") k [job_P; job_Q]
      (@start_jobs nat (fails_late "Q") [job_P; job_Q] (mkWorld [] 120)) = Some wk /\
    ((@Raised bool (ValueError_jobs_errored ["Q"]) = Returned true /\
      forallb (fun p => is_finished (snd p))
        (@statuses_of_pass nat (fails_late "Q") [job_P; job_Q] wk) = true /\
      kills_of [CallRun job_P; CallRun job_Q;
                CallStatus job_P FINISHED; CallStatus job_Q FAILED;
                CallKill job_P; CallKill job_Q] = []) \/
     (@Raised bool (ValueError_jobs_errored ["Q"]) =
        Raised (ValueError_jobs_errored
                  (@errored_names nat (fails_late "Q") [job_P; job_Q] wk)) /\
      existsb (fun p => is_errored (snd p))
        (@statuses_of_pass nat (fails_late "Q") [job_P; job_Q] wk) = true /\
      @errored_names nat (fails_late "Q") [job_P; job_Q] wk <> [] /\
      kills_of [CallRun job_P; CallRun job_Q;
                CallStatus job_P FINISHED; CallStatus job_Q FAILED;
                CallKill job_P; CallKill job_Q] = [] ++ [job_P; job_Q])).
Proof.
  apply (@execute_and_wait_answer nat (fails_late "Q") 1 [job_P; job_Q]
           (mkWorld [] 120)
           (mkWorld [CallRun job_P; CallRun job_Q;
                     CallStatus job_P FINISHED; CallStatus job_Q FAILED;
                     CallKill job_P; CallKill job_Q] 120)
           (Raised (ValueError_jobs_errored ["Q"]))).
  - reflexivity.
  - discriminate.
Defined.

(** ** Runs *)

Lemma compute_preserves (wf : Workflow) :
  jobs (snd (_compute_workflow_metadata wf)) = jobs wf /\
  loop (snd (_compute_workflow_metadata wf)) = loop wf /\
  workflow_name (snd (_compute_workflow_metadata wf)) = workflow_name wf.
Proof.
  destruct (_metadata wf) as [m |] eqn:Hm.
  - rewrite (compute_set wf m Hm). auto.
  - rewrite (compute_unset wf Hm).
    destruct (toposort (build_graph [] (jobs wf))); simpl; auto.
Qed.

Section Runs.
Context {E : Type} `{JobHandle E}.

Lemma run_workflow (fuel : nat) (wf : Workflow) (w : World E) :
  snd (fst (run fuel wf w)) = snd (_compute_workflow_metadata wf).
Proof.
  unfold run. destruct (_compute_workflow_metadata wf) as [[v | e |] wf']; simpl;
    try reflexivity.
  destruct (run_loop fuel wf' true w). reflexivity.
Qed.

Lemma run_loop_never_returns (wf : Workflow) :
  loop wf = true ->
  forall (fuel : nat) (first_run : bool) (w w' : World E) (u : unit),
  run_loop fuel wf first_run w <> (Returned u, w').
Proof.
  intros Hloop. induction fuel as [| fuel IH]; intros first_run w w' u; simpl;
    rewrite Hloop, orb_true_r; [discriminate |].
  unfold bind. destruct (metadata_topological_order wf w) as [[bs | e |] w1];
    try discriminate.
  destruct (run_batches fuel bs w1) as [[u1 | e |] w2]; try discriminate.
  apply IH.
Qed.

Lemma errored_names_not_nil (jobs : list Job) (w : World E) :
  existsb (fun p => is_errored (snd p)) (statuses_of_pass jobs w) = true ->
  errored_names jobs w <> [].
Proof.
  intros Herr. unfold errored_names. apply existsb_exists in Herr.
  destruct Herr as [p [Hp Hperr]].
  assert (Hin : In p (filter (fun p => is_errored (snd p)) (statuses_of_pass jobs w)))
    by (apply filter_In; auto).
  destruct (filter (fun p => is_errored (snd p)) (statuses_of_pass jobs w));
    [destruct Hin | discriminate].
Qed.

Lemma run_batches_raised (fuel : nat) (batches : list (list Node)) :
  forall (w w' : World E) (e : Exn),
  run_batches fuel batches w = (Raised e, w') ->
  exists names, names <> [] /\ e = ValueError_jobs_errored names.
Proof.
  induction batches as [| b batches IH]; simpl; intros w w' e; [discriminate |].
  unfold bind, _execute_and_wait.
  destruct (wait_loop fuel (map job b) (start_jobs (map job b) w)) as [[v | e1 |] w1] eqn:H1.
  - apply IH.
  - intros [= <- <-].
    assert (Ho : @Raised bool e1 <> OutOfFuel) by discriminate.
    destruct (wait_loop_answers _ _ _ _ _ H1 Ho) as [k [wk [_ [_ Hlast]]]].
    destruct Hlast as [[Hret _] | [Hraise [Herr _]]]; [discriminate |].
    injection Hraise as ->. eexists. split; [| reflexivity].
    apply errored_names_not_nil. exact Herr.
  - discriminate.
Qed.

Lemma run_loop_raised (wf : Workflow) (m : Metadata) :
  _metadata wf = Some m ->
  forall (fuel : nat) (first_run : bool) (w w' : World E) (e : Exn),
  run_loop fuel wf first_run w = (Raised e, w') ->
  exists names, names <> [] /\ e = ValueError_jobs_errored names.
Proof.
  intros Hm. induction fuel as [| fuel IH]; intros first_run w w' e; simpl.
  - destruct (first_run || loop wf); discriminate.
  - destruct (first_run || loop wf); [| discriminate].
    unfold bind, metadata_topological_order, metadata. rewrite Hm. simpl.
    destruct (run_batches fuel (topological_order m) w) as [[u | e1 |] w1] eqn:H1.
    + apply IH.
    + intros [= <- <-]. eapply run_batches_raised. exact H1.
    + discriminate.
Qed.

(** X10.  On a workflow whose loop flag is not set and whose metadata
    computation succeeds, if the one walk over the batch sequence completes,
    [run] returns, with the computed metadata stored, in the world that walk
    ended in: the batch sequence is executed once and no more. *)
Theorem run_once_without_loop (wf wf' : Workflow) (m : Metadata)
    (f : nat) (w w1 : World E) :
  _compute_workflow_metadata wf = (Returned (Some m), wf') ->
  loop wf = false ->
  run_batches f (topological_order m) w = (Returned tt, w1) ->
  forall fuel, f < fuel -> run fuel wf w = (Returned tt, wf', w1).
Proof.
  intros Hc Hloop Hrun fuel Hlt.
  destruct (compute_returned _ _ _ Hc) as [Hnone [Hwf' _]].
  assert (Hm : _metadata wf' = Some m) by (subst wf'; reflexivity).
  assert (Hloop' : loop wf' = false) by (subst wf'; exact Hloop).
  rewrite (run_computed _ _ m _ _ Hc).
  destruct fuel as [| fuel]; [lia |].
  rewrite (run_loop_step _ _ m) by auto.
  rewrite (run_batches_more_fuel f fuel _ _ _ _ Hrun) by (congruence || lia).
  rewrite (run_loop_stops _ _ _ Hloop'). reflexivity.
Qed.

(** X11.  With the loop flag set, [run] never returns: whatever the jobs
    do and however long it is given, it ends by raising or it does not end. *)
Theorem run_with_loop_never_returns (wf : Workflow) (fuel : nat) (w : World E) :
  loop wf = true -> fst (fst (run fuel wf w)) <> Returned tt.
Proof.
  intros Hloop. unfold run.
  pose proof (compute_preserves wf) as [_ [Hl _]].
  destruct (_compute_workflow_metadata wf) as [[v | e |] wf']; simpl in *;
    try discriminate.
  destruct (run_loop fuel wf' true w) as [o w'] eqn:Hrun. simpl.
  intros ->. apply (run_loop_never_returns wf') in Hrun; [exact Hrun | congruence].
Qed.

(** X12.  What [run] raises is one of three errors: the already-exists
    error of the metadata guard; the circular-dependency error; or the
    jobs-errored error, with at least one name in it.  In particular it
    never fails on reading the batch sequence of a missing metadata. *)
Theorem run_raises_only (fuel : nat) (wf wf' : Workflow) (w w' : World E) (e : Exn) :
  run fuel wf w = (Raised e, wf', w') ->
  e = ValueError_metadata_already_exists \/
  (exists remaining, e = CircularDependencyError remaining) \/
  (exists names, names <> [] /\ e = ValueError_jobs_errored names).
Proof.
  unfold run. destruct (_metadata wf) as [m0 |] eqn:Hm.
  - rewrite (compute_set wf m0 Hm). intros Heq.
    assert (He : e = ValueError_metadata_already_exists) by congruence. auto.
  - rewrite (compute_unset wf Hm).
    destruct (toposort (build_graph [] (jobs wf))) as [bs | r |]; cbv zeta.
    + cbv beta iota. set (m := mkMetadata [] bs (build_graph [] (jobs wf))).
      destruct (run_loop fuel (with_metadata wf (Some m)) true w) as [o w1] eqn:Hrun.
      intros Heq. assert (Ho : o = Raised e) by congruence. subst o.
      right. right.
      eapply (run_loop_raised (with_metadata wf (Some m)) m);
        [reflexivity | exact Hrun].
    + intros Heq. assert (He : e = CircularDependencyError r) by congruence.
      right. left. eauto.
    + discriminate.
Qed.

(** X13.  Whatever comes of it, [run] leaves the registry, the loop flag
    and the name of the workflow as they were. *)
Theorem run_keeps_registry (fuel : nat) (wf : Workflow) (w : World E) :
  jobs (snd (fst (run fuel wf w))) = jobs wf /\
  loop (snd (fst (run fuel wf w))) = loop wf /\
  workflow_name (snd (fst (run fuel wf w))) = workflow_name wf.
Proof. rewrite run_workflow. apply compute_preserves. Qed.

End Runs.

Lemma run_once_without_loop_witness :
  exists w1,
    @run nat all_finished 2 workflow_ABC world0 =
      (Returned tt, snd (_compute_workflow_metadata workflow_ABC), w1) /\
    runs_of (trace w1) = [job_A; job_B; job_C].
Proof.
  eexists. split.
  - apply (@run_once_without_loop nat all_finished workflow_ABC
             (snd (_compute_workflow_metadata workflow_ABC))
             (mkMetadata []
                [[mkNode "A" job_A]; [mkNode "B" job_B]; [mkNode "C" job_C]]
                [(mkNode "C" job_C, [mkNode "B" job_B]);
                 (mkNode "B" job_B, [mkNode "A" job_A])])
             1 world0).
    + reflexivity.
    + reflexivity.
    + reflexivity.
    + lia.
  - reflexivity.
Defined.

Lemma run_with_loop_never_returns_witness :
  fst (fst (@run nat (fails_late "B") 9 workflow_loop world0)) <> Returned tt.
Proof.
  apply (@run_with_loop_never_returns nat (fails_late "B") workflow_loop 9 world0).
  reflexivity.
Defined.

Lemma run_raises_only_witness :
  ValueError_jobs_errored ["B"] = ValueError_metadata_already_exists \/
  (exists remaining, ValueError_jobs_errored ["B"] = CircularDependencyError remaining) \/
  (exists names, names <> [] /\ ValueError_jobs_errored ["B"] = ValueError_jobs_errored names).
Proof.
  apply (@run_raises_only nat (fails_late "B") 9 workflow_ABC
           (snd (_compute_workflow_metadata workflow_ABC)) world0
           (snd (@run nat (fails_late "B") 9 workflow_ABC world0))).
  reflexivity.
Defined.

(** ** Edge cases of a run *)

Lemma add_job_fresh (wf : Workflow) (j : Job) (dependencies : option (list Job)) :
  (forall entry, ~ In (job_name j, entry) (jobs wf)) ->
  add_job wf (PJob j) (option_map (map PJob) dependencies) =
    (Returned tt,
     {| workflow_name := workflow_name wf; _metadata := _metadata wf;
        _loop := _loop wf;
        jobs := jobs wf ++
                [(job_name j,
                  mkJobEntry j match dependencies with
                               | Some l => l | None => [] end)] |}).
Proof.
  intros Hfresh.
  assert (Hmem : dict_mem String.eqb (jobs wf) (job_name j) = false).
  { apply not_true_is_false. intros Hmem. apply dict_mem_In in Hmem.
    destruct Hmem as [entry Hin]. exact (Hfresh entry Hin). }
  unfold add_job. destruct dependencies as [deps |]; simpl.
  - rewrite forallb_isinstance_PJob, as_jobs_PJob, Hmem. simpl.
    rewrite (dict_set_fresh _ _ _ Hmem). reflexivity.
  - rewrite Hmem, (dict_set_fresh _ _ _ Hmem). reflexivity.
Qed.

Lemma build_graph_no_dependencies (registry : list (string * JobEntry)) :
  (forall key entry, In (key, entry) registry -> entry_dependencies entry = []) ->
  build_graph [] registry = [].
Proof.
  intros Hnone.
  enough (Hgen : forall g,
            fold_left
              (fun g item =>
                 add_dependencies [] (dict_get String.eqb [] (fst item)
                                        (mkNode (fst item) (entry_job (snd item))))
                                  (entry_dependencies (snd item)) g)
              registry g = g) by apply Hgen.
  revert Hnone.
  induction registry as [| [key entry] registry IH]; simpl; intros Hnone g.
  - reflexivity.
  - rewrite (Hnone key entry) by (left; reflexivity). simpl.
    apply IH. intros key' entry' Hin. apply (Hnone key' entry'). right. exact Hin.
Qed.

Section EdgeCases.
Context {E : Type} `{JobHandle E}.

Lemma run_loop_no_batches (wf : Workflow) (m : Metadata) :
  _metadata wf = Some m -> topological_order m = [] -> loop wf = true ->
  forall (fuel : nat) (first_run : bool) (w : World E),
  run_loop fuel wf first_run w = (OutOfFuel, w).
Proof.
  intros Hm Hnil Hloop. induction fuel as [| fuel IH]; intros first_run w.
  - simpl. rewrite Hloop, orb_true_r. reflexivity.
  - rewrite (run_loop_step _ _ m) by (auto; rewrite Hloop; apply orb_true_r).
    rewrite Hnil. simpl. apply IH.
Qed.

(** X14.  On a workflow, not yet run, in which no registered job declares
    a dependency, metadata computation succeeds with an empty node list, an
    empty batch sequence and an empty graph, whatever jobs are registered.
    Without the loop flag [run] then returns at once; with it, [run] goes
    round its loop without end; either way it asks nothing of any job. *)
Theorem run_without_dependencies_starts_nothing (wf : Workflow) :
  _metadata wf = None ->
  (forall key entry, In (key, entry) (jobs wf) -> entry_dependencies entry = []) ->
  _compute_workflow_metadata wf =
    (Returned (Some (mkMetadata [] [] [])),
     with_metadata wf (Some (mkMetadata [] [] []))) /\
  (loop wf = false ->
   forall fuel (w : World E),
     run (S fuel) wf w = (Returned tt, with_metadata wf (Some (mkMetadata [] [] [])), w)) /\
  (loop wf = true ->
   forall fuel (w : World E),
     run fuel wf w = (OutOfFuel, with_metadata wf (Some (mkMetadata [] [] [])), w)).
Proof.
  intros Hnone Hdeps.
  assert (Hc : _compute_workflow_metadata wf =
               (Returned (Some (mkMetadata [] [] [])),
                with_metadata wf (Some (mkMetadata [] [] [])))).
  { rewrite (compute_unset wf Hnone), (build_graph_no_dependencies _ Hdeps).
    reflexivity. }
  split; [exact Hc |]. split.
  - intros Hloop fuel w. rewrite (run_computed _ _ _ _ _ Hc).
    rewrite (run_loop_step _ _ (mkMetadata [] [] [])) by auto. simpl.
    rewrite run_loop_stops by exact Hloop. reflexivity.
  - intros Hloop fuel w. rewrite (run_computed _ _ _ _ _ Hc).
    rewrite (run_loop_no_batches _ (mkMetadata [] [] [])) by auto. reflexivity.
Qed.

Lemma status_in_pass (jobs : list Job) (j0 : Job) :
  In j0 jobs ->
  forall w : World E,
  exists e, In (j0, fst (job_status j0 e)) (statuses_of_pass jobs w).
Proof.
  induction jobs as [| j jobs IH]; simpl; [tauto |]. intros [-> | Hin] w.
  - exists (env w). unfold call_status.
    destruct (job_status j0 (env w)) as [s e]. simpl. left. reflexivity.
  - destruct (call_status j w) as [s w1].
    destruct (IH Hin w1) as [e He]. exists e. right. exact He.
Qed.

(** X15.  [_execute_and_wait] has no timeout.  If some job of the batch
    never reports FINISHED and no job ever reports FAILED or UNDETERMINED,
    it gives no answer however long it is given; it sleeps 60 seconds after
    every pass, and kills nothing. *)
Theorem execute_and_wait_has_no_timeout (jobs : list Job) (j0 : Job) :
  In j0 jobs ->
  (forall e : E, is_finished (fst (job_status j0 e)) = false) ->
  (forall (j : Job) (e : E), is_errored (fst (job_status j e)) = false) ->
  forall fuel (w : World E),
    fst (_execute_and_wait fuel jobs w) = OutOfFuel /\
    sleeps_of (trace (snd (_execute_and_wait fuel jobs w))) =
      sleeps_of (trace w) ++ repeat 60 fuel /\
    kills_of (trace (snd (_execute_and_wait fuel jobs w))) = kills_of (trace w).
Proof.
  intros Hin Hrunning Hok fuel w. unfold _execute_and_wait.
  assert (Hgen : forall fuel (w : World E),
            fst (wait_loop fuel jobs w) = OutOfFuel /\
            sleeps_of (trace (snd (wait_loop fuel jobs w))) =
              sleeps_of (trace w) ++ repeat 60 fuel /\
            kills_of (trace (snd (wait_loop fuel jobs w))) = kills_of (trace w)).
  { clear fuel w. induction fuel as [| fuel IH]; intros w; simpl.
    - rewrite app_nil_r. auto.
    - destruct (poll_jobs_spec jobs (mkPoll true false []) w) as [H1 [H2 [_ H4]]].
      destruct (poll_jobs jobs (mkPoll true false []) w) as [st w1].
      simpl in H1, H2, H4.
      rewrite (statuses_of_pass_no_error Hok) in H2.
      assert (Hall : all_completed st = false).
      { rewrite H1. apply not_true_is_false. intros Hall.
        rewrite forallb_forall in Hall.
        destruct (status_in_pass jobs j0 Hin w) as [e He].
        specialize (Hall _ He). simpl in Hall. rewrite Hrunning in Hall.
        discriminate Hall. }
      rewrite Hall, H2.
      destruct (IH (call_sleep 60 w1)) as [Hfst [Hsleeps Hkills]].
      rewrite Hfst, Hsleeps, Hkills. simpl.
      rewrite H4, !sleeps_of_app, !kills_of_app.
      rewrite sleeps_of_CallStatus, kills_of_CallStatus. simpl.
      rewrite !app_nil_r, <- app_assoc. auto. }
  destruct (Hgen fuel (start_jobs jobs w)) as [Hfst [Hsleeps Hkills]].
  rewrite Hfst, Hsleeps, Hkills, start_jobs_trace, sleeps_of_app, kills_of_app.
  rewrite sleeps_of_CallRun, kills_of_CallRun, !app_nil_r. auto.
Qed.

(** X16.  [add_job] does not look at the metadata.  On a workflow whose
    metadata is computed, registering a job under a new name returns and
    leaves the metadata, batch sequence included, as it was computed; a
    [run] of the workflow then raises the already-exists error and asks
    nothing of any job, so the job registered late is never started. *)
Theorem add_job_after_run_is_never_scheduled (wf : Workflow) (m : Metadata)
    (j : Job) (dependencies : option (list Job)) :
  _metadata wf = Some m ->
  (forall entry, ~ In (job_name j, entry) (jobs wf)) ->
  fst (add_job wf (PJob j) (option_map (map PJob) dependencies)) = Returned tt /\
  In (job_name j)
     (map fst (jobs (snd (add_job wf (PJob j) (option_map (map PJob) dependencies))))) /\
  metadata (snd (add_job wf (PJob j) (option_map (map PJob) dependencies))) =
    Returned (Some m) /\
  forall fuel (w : World E),
    run fuel (snd (add_job wf (PJob j) (option_map (map PJob) dependencies))) w =
      (Raised ValueError_metadata_already_exists,
       snd (add_job wf (PJob j) (option_map (map PJob) dependencies)), w).
Proof.
  intros Hm Hfresh. rewrite (add_job_fresh wf j dependencies Hfresh). simpl.
  repeat split.
  - rewrite map_app, in_app_iff. right. left. reflexivity.
  - unfold metadata. simpl. rewrite Hm. reflexivity.
  - intros fuel w. unfold run. erewrite compute_set; [reflexivity |]. exact Hm.
Qed.

End EdgeCases.

Lemma run_without_dependencies_starts_nothing_witness :
  _compute_workflow_metadata workflow_XY =
    (Returned (Some (mkMetadata [] [] [])),
     with_metadata workflow_XY (Some (mkMetadata [] [] []))) /\
  (forall fuel (w : World nat),
     @run nat all_finished (S fuel) workflow_XY w =
       (Returned tt, with_metadata workflow_XY (Some (mkMetadata [] [] [])), w)) /\
  (forall fuel (w : World nat),
     @run nat all_finished fuel (loop_setter workflow_XY true) w =
       (OutOfFuel,
        with_metadata (loop_setter workflow_XY true) (Some (mkMetadata [] [] [])), w)).
Proof.
  assert (Hdeps : forall key entry,
            In (key, entry) (jobs workflow_XY) -> entry_dependencies entry = []).
  { intros key entry [Hin | [Hin | []]]; injection Hin as _ <-; reflexivity. }
  split; [| split].
  - exact (proj1 (@run_without_dependencies_starts_nothing nat all_finished
                    workflow_XY eq_refl Hdeps)).
  - exact (proj1 (proj2 (@run_without_dependencies_starts_nothing nat all_finished
                           workflow_XY eq_refl Hdeps)) eq_refl).
  - exact (proj2 (proj2 (@run_without_dependencies_starts_nothing nat all_finished
                           (loop_setter workflow_XY true) eq_refl Hdeps)) eq_refl).
Defined.

Lemma execute_and_wait_has_no_timeout_witness :
  fst (@_execute_and_wait nat (scripted (fun _ _ => RUNNING)) 7 [job_P; job_Q] world0) =
    OutOfFuel /\
  sleeps_of (trace (snd (@_execute_and_wait nat (scripted (fun _ _ => RUNNING)) 7
                           [job_P; job_Q] world0))) =
    sleeps_of (trace world0) ++ repeat 60 7 /\
  kills_of (trace (snd (@_execute_and_wait nat (scripted (fun _ _ => RUNNING)) 7
                          [job_P; job_Q] world0))) =
    kills_of (trace world0).
Proof.
  apply (@execute_and_wait_has_no_timeout nat (scripted (fun _ _ => RUNNING))
           [job_P; job_Q] job_Q).
  - right. left. reflexivity.
  - intros e. reflexivity.
  - intros j e. reflexivity.
Defined.

Lemma add_job_after_run_is_never_scheduled_witness :
  let wf := snd (_compute_workflow_metadata workflow_ABC) in
  let m := mkMetadata []
             [[mkNode "A" job_A]; [mkNode "B" job_B]; [mkNode "C" job_C]]
             [(mkNode "C" job_C, [mkNode "B" job_B]);
              (mkNode "B" job_B, [mkNode "A" job_A])] in
  fst (add_job wf (PJob job_X) (option_map (map PJob) (Some [job_C]))) = Returned tt /\
  In (job_name job_X)
     (map fst (jobs (snd (add_job wf (PJob job_X) (option_map (map PJob) (Some [job_C])))))) /\
  metadata (snd (add_job wf (PJob job_X) (option_map (map PJob) (Some [job_C])))) =
    Returned (Some m) /\
  forall fuel (w : World nat),
    @run nat all_finished fuel
      (snd (add_job wf (PJob job_X) (option_map (map PJob) (Some [job_C])))) w =
      (Raised ValueError_metadata_already_exists,
       snd (add_job wf (PJob job_X) (option_map (map PJob) (Some [job_C]))), w).
Proof.
  apply (@add_job_after_run_is_never_scheduled nat all_finished
           (snd (_compute_workflow_metadata workflow_ABC))).
  - reflexivity.
  - intros entry [Hin | [Hin | [Hin | []]]]; discriminate Hin.
Defined.
